(** * Message fragments of a chat: data model, factories, duplication

    A shallow embedding of [src/common/stores/chat/chat.fragments.ts].

    How the TypeScript is read:
    - Every tagged union is an inductive type, one constructor per tag; the
      tag strings are given back by [ft], [pt], [idt] and [reftype].
    - An object written as a literal inside this module ([{ pt: 'text', text }])
      is a value: each evaluation of the literal makes a new object, so such
      records can never be shared between an input and an output.
    - An object that the module receives from its callers and hands on
      (the [meta] of a document, the [_args_schema] of a function call, and
      whatever these contain) lives in a store and is named by its address,
      so that sharing between an input and an output is visible.
    - [agiId] and [Date.now] are read from the world, which counts the calls
      made so far. *)

From Stdlib Require Import ZArith Lia.
From stdpp Require Import base list strings pretty.

Set Default Proof Using "Type".

(** ** Plain JavaScript objects in the store *)

(** Addresses of the store. *)
Abbreviation loc := nat (only parsing).

Inductive JsValue :=
  | JUndefined
  | JNull
  | JBool (b : bool)
  | JNum (z : Z)
  | JStr (s : string)
  | JRef (l : loc).

(** An object has its own enumerable properties, in insertion order; an array
    is an object whose keys are its indices. *)
Record JsObject := {
  obj_array : bool;
  obj_props : list (string * JsValue)
}.

Abbreviation Heap := (list JsObject) (only parsing).

(** ** The world: store, identifier generator, clock *)

(** Modelled from the spec: [agiId] of [~/common/util/idUtils] is not part of
    the sources at hand. Section 6 describes it as a capability that returns a
    string token on each call, namespaced by a caller-supplied tag. The token
    of the [k]-th call with scope [s] is [w_tokens w s k]; nothing is assumed
    about the tokens here. [Date.now()] is treated the same way: the [k]-th
    reading is [w_clock w k], an integer number of milliseconds. *)
Record World := {
  w_heap : Heap;
  w_tokens : string -> nat -> string;
  w_agiId_calls : nat;
  w_clock : nat -> Z;
  w_now_calls : nat
}.

(** Computations read and extend the world; [None] is a read through an
    address that the store does not hold. *)
Definition M (A : Type) : Type := World -> option (A * World).

Definition ret {A} (a : A) : M A := fun w => Some (a, w).

Definition bind {A B} (m : M A) (f : A -> M B) : M B :=
  fun w => match m w with
           | Some (a, w') => f a w'
           | None => None
           end.

Notation "x <- m ;; f" := (bind m (fun x => f))
  (at level 100, m at next level, right associativity).

Definition agiId (scope : string) : M string :=
  fun w => Some (w_tokens w scope (w_agiId_calls w),
                 {| w_heap := w_heap w; w_tokens := w_tokens w;
                    w_agiId_calls := S (w_agiId_calls w);
                    w_clock := w_clock w; w_now_calls := w_now_calls w |}).

Definition Date_now : M Z :=
  fun w => Some (w_clock w (w_now_calls w),
                 {| w_heap := w_heap w; w_tokens := w_tokens w;
                    w_agiId_calls := w_agiId_calls w;
                    w_clock := w_clock w; w_now_calls := S (w_now_calls w) |}).

Definition heap_get (l : loc) : M JsObject :=
  fun w => match w_heap w !! l with
           | Some o => Some (o, w)
           | None => None
           end.

Definition heap_alloc (o : JsObject) : M loc :=
  fun w => Some (length (w_heap w),
                 {| w_heap := w_heap w ++ [o]; w_tokens := w_tokens w;
                    w_agiId_calls := w_agiId_calls w;
                    w_clock := w_clock w; w_now_calls := w_now_calls w |}).

(** [{ ...obj }]: a new plain object with the own enumerable properties of
    [obj], in the same order. The values are copied as they are, so a property
    that holds an address holds the same address in the copy. *)
Definition object_spread (l : loc) : M loc :=
  o <- heap_get l ;;
  heap_alloc {| obj_array := false; obj_props := obj_props o |}.

(** [array.map(f)]: a new array, [f] applied from left to right. *)
Fixpoint Array_map {A B} (f : A -> M B) (xs : list A) : M (list B) :=
  match xs with
  | [] => ret []
  | x :: xs' => y <- f x ;; ys <- Array_map f xs' ;; ret (y :: ys)
  end.

(** ** Optional properties *)

(** A property declared [name?: T] is missing, holds [undefined], or holds a
    value. Reading it gives [undefined] in the first two cases. A parameter
    declared [name?: T] is [undefined] or a value. *)
Inductive Optional (A : Type) :=
  | Absent
  | Undefined
  | Present (a : A).
Arguments Absent {A}.
Arguments Undefined {A}.
Arguments Present {A} a.

Definition read {A} (o : Optional A) : option A :=
  match o with
  | Present a => Some a
  | _ => None
  end.

(** [{ name }] with [name] a parameter: the key is always written. *)
Definition field {A} (arg : option A) : Optional A :=
  match arg with
  | Some a => Present a
  | None => Undefined
  end.

(** ** Message Data Reference *)

Definition DMessageFragmentId := string.

(** Modelled from the spec: [DBlobAssetId] of [~/modules/dblobs/dblobs.types]
    is not part of the sources at hand; section 3 calls it an opaque
    identifier, and it is a string here. *)
Definition DBlobAssetId := string.

Inductive DMessageDataInline :=
  | DataInlineText (text : string) (mimeType : Optional string).

Inductive DMessageDataRef :=
  | DataRefUrl (url : string)
  | DataRefDBlob (dblobAssetId : DBlobAssetId) (mimeType : string) (bytesSize : Z).

Definition idt (data : DMessageDataInline) : string :=
  match data with DataInlineText _ _ => "text" end.

Definition reftype (ref : DMessageDataRef) : string :=
  match ref with
  | DataRefUrl _ => "url"
  | DataRefDBlob _ _ _ => "dblob"
  end.

(** ** Message Parts *)

Inductive DMessageDocMimeType :=
  | application_vnd_agi_ego
  | application_vnd_agi_ocr
  | text_html
  | text_markdown
  | text_plain.

Inductive GeminiVariant := gemini_auto_inline.

Inductive DMessageToolEnvironment := upstream | server | client.

(** [arguments: { code: string; language?: string }] *)
Record CodeExecutionArguments := {
  code : string;
  language : Optional string
}.

(** [args] is [string | null]; [_args_schema] is the address of the schema
    object. *)
Inductive DMessageToolInvocationCall :=
  | DMessageToolInvocationFunctionCall
      (name : string) (args : option string)
      (_description : Optional string) (_args_schema : Optional loc)
  | DMessageToolInvocationCodeExecution
      (variant : Optional GeminiVariant) (arguments : CodeExecutionArguments).

Inductive DMessageToolResponse :=
  | DMessageToolResponseFunctionCall (result : string) (_name : Optional string)
  | DMessageToolResponseCodeExecution (result : string) (_variant : Optional GeminiVariant).

(** The parts of content and of attachment fragments together, as
    [_duplicatePart] takes them. [meta] is the address of the
    [DMessageDocMeta] object. *)
Inductive DMessagePart :=
  | DMessageDocPart (type : DMessageDocMimeType) (data : DMessageDataInline)
      (ref : string) (meta : Optional loc)
  | DMessageErrorPart (error : string)
  | DMessageImageRefPart (dataRef : DMessageDataRef)
      (altText : Optional string) (width height : Optional Z)
  | DMessageTextPart (text : string)
  | DMessageToolInvocationPart (id : string) (call : DMessageToolInvocationCall)
  | DMessageToolResponsePart (id : string) (response : DMessageToolResponse)
      (error : Optional (bool + string))
      (_environment : Optional DMessageToolEnvironment)
  | DMetaPlaceholderPart (pText : string)
  | _DMetaSentinelPart.

Definition pt (part : DMessagePart) : string :=
  match part with
  | DMessageDocPart _ _ _ _ => "doc"
  | DMessageErrorPart _ => "error"
  | DMessageImageRefPart _ _ _ _ => "image_ref"
  | DMessageTextPart _ => "text"
  | DMessageToolInvocationPart _ _ => "tool_call"
  | DMessageToolResponsePart _ _ _ _ => "tool_response"
  | DMetaPlaceholderPart _ => "ph"
  | _DMetaSentinelPart => "_pt_sentinel"
  end.

(** ** Message Fragments *)

Record DMessageContentFragment := {
  cf_fId : DMessageFragmentId;
  cf_part : DMessagePart
}.

Record DMessageAttachmentFragment := {
  af_fId : DMessageFragmentId;
  af_title : string;
  af_caption : string;
  af_created : Z;
  af_part : DMessagePart
}.

Record _DMessageSentinelFragment := {
  sf_fId : DMessageFragmentId
}.

Inductive DMessageFragment :=
  | ContentFragment (f : DMessageContentFragment)
  | AttachmentFragment (f : DMessageAttachmentFragment)
  | SentinelFragment (f : _DMessageSentinelFragment).

Definition ft (fragment : DMessageFragment) : string :=
  match fragment with
  | ContentFragment _ => "content"
  | AttachmentFragment _ => "attachment"
  | SentinelFragment _ => "_ft_sentinel"
  end.

Definition fId (fragment : DMessageFragment) : DMessageFragmentId :=
  match fragment with
  | ContentFragment f => cf_fId f
  | AttachmentFragment f => af_fId f
  | SentinelFragment f => sf_fId f
  end.

(** The parts that the type of a content fragment admits, and those that the
    type of an attachment fragment admits. *)
Definition content_part (part : DMessagePart) : bool :=
  match part with
  | DMessageDocPart _ _ _ _ => false
  | _ => true
  end.

Definition attachment_part (part : DMessagePart) : bool :=
  match part with
  | DMessageDocPart _ _ _ _ | DMessageImageRefPart _ _ _ _ | _DMetaSentinelPart => true
  | _ => false
  end.

Definition well_typed (fragment : DMessageFragment) : bool :=
  match fragment with
  | ContentFragment f => content_part (cf_part f)
  | AttachmentFragment f => attachment_part (af_part f)
  | SentinelFragment _ => true
  end.

(** ** Helpers - Fragment Type Guards *)

Definition isContentFragment (fragment : DMessageFragment) : bool :=
  String.eqb (ft fragment) "content".

Definition isAttachmentFragment (fragment : DMessageFragment) : bool :=
  String.eqb (ft fragment) "attachment".

Definition isContentOrAttachmentFragment (fragment : DMessageFragment) : bool :=
  String.eqb (ft fragment) "content" || String.eqb (ft fragment) "attachment".

Definition isDocPart (part : DMessagePart) : bool := String.eqb (pt part) "doc".

Definition isImageRefPart (part : DMessagePart) : bool := String.eqb (pt part) "image_ref".

Definition isTextPart (part : DMessagePart) : bool := String.eqb (pt part) "text".

(** ** Helpers - Parts Creation *)

Definition createDMessageDocPart (type : DMessageDocMimeType) (data : DMessageDataInline)
    (ref : string) (meta : option loc) : DMessagePart :=
  DMessageDocPart type data ref (field meta).

Definition createDMessageErrorPart (error : string) : DMessagePart :=
  DMessageErrorPart error.

Definition createDMessageImageRefPart (dataRef : DMessageDataRef)
    (altText : option string) (width height : option Z) : DMessagePart :=
  DMessageImageRefPart dataRef (field altText) (field width) (field height).

Definition createDMessageTextPart (text : string) : DMessagePart :=
  DMessageTextPart text.

Definition createDMessageFunctionCallInvocationPart (id name : string) (args : option string)
    (_description : option string) (_args_schema : option loc) : DMessagePart :=
  DMessageToolInvocationPart id
    (DMessageToolInvocationFunctionCall name args (field _description) (field _args_schema)).

Definition createDMessageCodeExecutionInvocationPart (id code : string)
    (language : option string) (variant : option GeminiVariant) : DMessagePart :=
  DMessageToolInvocationPart id
    (DMessageToolInvocationCodeExecution (field variant)
       {| code := code; language := field language |}).

Definition createDMessageFunctionCallResponsePart (id result : string) (_name : option string)
    (error : option (bool + string)) (_environment : option DMessageToolEnvironment)
    : DMessagePart :=
  DMessageToolResponsePart id (DMessageToolResponseFunctionCall result (field _name))
    (field error) (field _environment).

Definition createDMessageCodeExecutionResponsePart (id result : string)
    (_variant : option GeminiVariant)
    (error : option (bool + string)) (_environment : option DMessageToolEnvironment)
    : DMessagePart :=
  DMessageToolResponsePart id (DMessageToolResponseCodeExecution result (field _variant))
    (field error) (field _environment).

Definition createDMetaPlaceholderPart (placeholderText : string) : DMessagePart :=
  DMetaPlaceholderPart placeholderText.

Definition createDMetaSentinelPart : DMessagePart := _DMetaSentinelPart.

(** ** Helpers - Data Reference Creation *)

Definition createDMessageDataInlineText (text : string) (mimeType : option string)
    : DMessageDataInline :=
  DataInlineText text (field mimeType).

Definition createDMessageDataRefUrl (url : string) : DMessageDataRef := DataRefUrl url.

Definition createDMessageDataRefDBlob (dblobAssetId : DBlobAssetId) (mimeType : string)
    (bytesSize : Z) : DMessageDataRef :=
  DataRefDBlob dblobAssetId mimeType bytesSize.

(** ** Helpers - Duplication (leaves) *)

Definition _duplicateInlineData (data : DMessageDataInline) : DMessageDataInline :=
  match data with
  | DataInlineText text mimeType => createDMessageDataInlineText text (read mimeType)
  end.

Definition _duplicateDataReference (ref : DMessageDataRef) : DMessageDataRef :=
  match ref with
  | DataRefUrl url => createDMessageDataRefUrl url
  | DataRefDBlob dblobAssetId mimeType bytesSize =>
      createDMessageDataRefDBlob dblobAssetId mimeType bytesSize
  end.

(** [console.warn] leaves no trace in the world. *)
Definition _duplicateObjectWarning (obj : option loc) (devPlace : string) : M (option loc) :=
  match obj with
  | None => ret None
  | Some l => l' <- object_spread l ;; ret (Some l')
  end.

(** ** Helpers - Fragments Creation *)

Definition _createContentFragment (part : DMessagePart) : M DMessageContentFragment :=
  fId <- agiId "chat-dfragment" ;;
  ret {| cf_fId := fId; cf_part := part |}.

Definition createErrorContentFragment (error : string) : M DMessageContentFragment :=
  _createContentFragment (createDMessageErrorPart error).

Definition createImageContentFragment (dataRef : DMessageDataRef)
    (altText : option string) (width height : option Z) : M DMessageContentFragment :=
  _createContentFragment (createDMessageImageRefPart dataRef altText width height).

Definition createPlaceholderMetaFragment (placeholderText : string) : M DMessageContentFragment :=
  _createContentFragment (createDMetaPlaceholderPart placeholderText).

Definition createTextContentFragment (text : string) : M DMessageContentFragment :=
  _createContentFragment (createDMessageTextPart text).

(** [{ ...copyFragment, part: createDMessageTextPart(text) }]: the properties
    of [copyFragment], then [part] written over. *)
Definition specialShallowReplaceTextContentFragment
    (copyFragment : DMessageContentFragment) (text : string) : DMessageContentFragment :=
  {| cf_fId := cf_fId copyFragment; cf_part := createDMessageTextPart text |}.

Definition _createAttachmentFragment (title caption : string) (part : DMessagePart)
    : M DMessageAttachmentFragment :=
  fId <- agiId "chat-dfragment" ;;
  created <- Date_now ;;
  ret {| af_fId := fId; af_title := title; af_caption := caption;
         af_created := created; af_part := part |}.

Definition createDocAttachmentFragment (title caption : string) (type : DMessageDocMimeType)
    (data : DMessageDataInline) (ref : string) (meta : option loc)
    : M DMessageAttachmentFragment :=
  _createAttachmentFragment title caption (createDMessageDocPart type data ref meta).

Definition createImageAttachmentFragment (title caption : string) (dataRef : DMessageDataRef)
    (imgAltText : option string) (width height : option Z) : M DMessageAttachmentFragment :=
  _createAttachmentFragment title caption
    (createDMessageImageRefPart dataRef imgAltText width height).

Definition specialContentPartToDocAttachmentFragment (title caption : string)
    (contentPart : DMessagePart) (ref : string) (docMeta : option loc)
    : M DMessageAttachmentFragment :=
  match contentPart with
  | DMessageTextPart text =>
      createDocAttachmentFragment title caption text_plain
        (createDMessageDataInlineText text (Some "text/plain")) ref docMeta
  | DMessageImageRefPart dataRef altText width height =>
      createImageAttachmentFragment title caption (_duplicateDataReference dataRef)
        (read altText) (read width) (read height)
  | _ =>
      createDocAttachmentFragment "Error" "Content to Attachment" text_plain
        (createDMessageDataInlineText
           ("Conversion of '" +:+ pt contentPart +:+ "' is not supported yet.")
           (Some "text/plain"))
        ref docMeta
  end.

Definition _createSentinelFragment : M _DMessageSentinelFragment :=
  fId <- agiId "chat-dfragment" ;;
  ret {| sf_fId := fId |}.

(** ** Helpers - Duplication *)

Definition _duplicatePart (part : DMessagePart) : M DMessagePart :=
  match part with
  | DMessageDocPart type data ref meta =>
      ret (createDMessageDocPart type (_duplicateInlineData data) ref (read meta))
  | DMessageErrorPart error =>
      ret (createDMessageErrorPart error)
  | DMessageImageRefPart dataRef altText width height =>
      ret (createDMessageImageRefPart (_duplicateDataReference dataRef)
             (read altText) (read width) (read height))
  | DMetaPlaceholderPart pText =>
      ret (createDMetaPlaceholderPart pText)
  | DMessageTextPart text =>
      ret (createDMessageTextPart text)
  | DMessageToolInvocationPart id call =>
      match call with
      | DMessageToolInvocationFunctionCall name args _description _args_schema =>
          schema <- match read _args_schema with
                    | Some l => l' <- object_spread l ;; ret (Some l')
                    | None => ret None
                    end ;;
          ret (createDMessageFunctionCallInvocationPart id name args (read _description) schema)
      | DMessageToolInvocationCodeExecution variant arguments =>
          ret (createDMessageCodeExecutionInvocationPart id (code arguments)
                 (read (language arguments)) (read variant))
      end
  | DMessageToolResponsePart id response error _environment =>
      match response with
      | DMessageToolResponseFunctionCall result _name =>
          ret (createDMessageFunctionCallResponsePart id result (read _name)
                 (read error) (read _environment))
      | DMessageToolResponseCodeExecution result _variant =>
          ret (createDMessageCodeExecutionResponsePart id result (read _variant)
                 (read error) (read _environment))
      end
  | _DMetaSentinelPart =>
      ret createDMetaSentinelPart
  end.

Definition _duplicateFragment (fragment : DMessageFragment) : M DMessageFragment :=
  match fragment with
  | ContentFragment f =>
      part <- _duplicatePart (cf_part f) ;;
      f' <- _createContentFragment part ;;
      ret (ContentFragment f')
  | AttachmentFragment f =>
      part <- _duplicatePart (af_part f) ;;
      f' <- _createAttachmentFragment (af_title f) (af_caption f) part ;;
      ret (AttachmentFragment f')
  | SentinelFragment _ =>
      f' <- _createSentinelFragment ;;
      ret (SentinelFragment f')
  end.

Definition duplicateDMessageFragments (fragments : list DMessageFragment)
    : M (list DMessageFragment) :=
  Array_map _duplicateFragment fragments.

(** ** What an observer reads: plain trees *)

(** The value read from a fragment, a part or a store address, as a tree.
    [TCut] stands where the reading stops: the depth bound for store objects
    is used up, or an address lies outside the store. *)
#[warnings="-register-all"]
Inductive Tree :=
  | TUndefined
  | TNull
  | TBool (b : bool)
  | TNum (z : Z)
  | TStr (s : string)
  | TObject (array : bool) (props : list (string * Tree))
  | TCut.

Fixpoint reify_val (n : nat) (h : Heap) (v : JsValue) {struct n} : Tree :=
  match v with
  | JUndefined => TUndefined
  | JNull => TNull
  | JBool b => TBool b
  | JNum z => TNum z
  | JStr s => TStr s
  | JRef l =>
      match n with
      | 0 => TCut
      | S n' =>
          match h !! l with
          | Some o =>
              TObject (obj_array o)
                (map (fun kv => (fst kv, reify_val n' h (snd kv))) (obj_props o))
          | None => TCut
          end
      end
  end.

(** The property list of an optional property: nothing when the key is
    missing, the key with [undefined] when it holds [undefined]. *)
Definition oprop {A} (k : string) (f : A -> Tree) (o : Optional A) : list (string * Tree) :=
  match o with
  | Absent => []
  | Undefined => [(k, TUndefined)]
  | Present a => [(k, f a)]
  end.

Definition DMessageDocMimeType_string (t : DMessageDocMimeType) : string :=
  match t with
  | application_vnd_agi_ego => "application/vnd.agi.ego"
  | application_vnd_agi_ocr => "application/vnd.agi.ocr"
  | text_html => "text/html"
  | text_markdown => "text/markdown"
  | text_plain => "text/plain"
  end.

Definition GeminiVariant_string (v : GeminiVariant) : string :=
  match v with gemini_auto_inline => "gemini_auto_inline" end.

Definition DMessageToolEnvironment_string (e : DMessageToolEnvironment) : string :=
  match e with
  | upstream => "upstream"
  | server => "server"
  | client => "client"
  end.

Definition reify_inline (data : DMessageDataInline) : Tree :=
  match data with
  | DataInlineText text mimeType =>
      TObject false ([("idt", TStr "text"); ("text", TStr text)]
                       ++ oprop "mimeType" TStr mimeType)
  end.

Definition reify_dataref (ref : DMessageDataRef) : Tree :=
  match ref with
  | DataRefUrl url =>
      TObject false [("reftype", TStr "url"); ("url", TStr url)]
  | DataRefDBlob dblobAssetId mimeType bytesSize =>
      TObject false [("reftype", TStr "dblob"); ("dblobAssetId", TStr dblobAssetId);
                     ("mimeType", TStr mimeType); ("bytesSize", TNum bytesSize)]
  end.

Definition reify_ref (n : nat) (h : Heap) (l : loc) : Tree := reify_val n h (JRef l).

Definition reify_call (n : nat) (h : Heap) (call : DMessageToolInvocationCall) : Tree :=
  match call with
  | DMessageToolInvocationFunctionCall name args _description _args_schema =>
      TObject false
        ([("type", TStr "function_call"); ("name", TStr name);
          ("args", match args with Some a => TStr a | None => TNull end)]
           ++ oprop "_description" TStr _description
           ++ oprop "_args_schema" (reify_ref n h) _args_schema)
  | DMessageToolInvocationCodeExecution variant arguments =>
      TObject false
        ([("type", TStr "code_execution")]
           ++ oprop "variant" (fun v => TStr (GeminiVariant_string v)) variant
           ++ [("arguments",
                TObject false ([("code", TStr (code arguments))]
                                 ++ oprop "language" TStr (language arguments)))])
  end.

Definition reify_response (response : DMessageToolResponse) : Tree :=
  match response with
  | DMessageToolResponseFunctionCall result _name =>
      TObject false ([("type", TStr "function_call"); ("result", TStr result)]
                       ++ oprop "_name" TStr _name)
  | DMessageToolResponseCodeExecution result _variant =>
      TObject false ([("type", TStr "code_execution"); ("result", TStr result)]
                       ++ oprop "_variant" (fun v => TStr (GeminiVariant_string v)) _variant)
  end.

Definition reify_error (e : bool + string) : Tree :=
  match e with
  | inl b => TBool b
  | inr s => TStr s
  end.

Definition reify_part (n : nat) (h : Heap) (part : DMessagePart) : Tree :=
  match part with
  | DMessageDocPart type data ref meta =>
      TObject false
        ([("pt", TStr "doc"); ("type", TStr (DMessageDocMimeType_string type));
          ("data", reify_inline data); ("ref", TStr ref)]
           ++ oprop "meta" (reify_ref n h) meta)
  | DMessageErrorPart error =>
      TObject false [("pt", TStr "error"); ("error", TStr error)]
  | DMessageImageRefPart dataRef altText width height =>
      TObject false
        ([("pt", TStr "image_ref"); ("dataRef", reify_dataref dataRef)]
           ++ oprop "altText" TStr altText
           ++ oprop "width" TNum width
           ++ oprop "height" TNum height)
  | DMessageTextPart text =>
      TObject false [("pt", TStr "text"); ("text", TStr text)]
  | DMessageToolInvocationPart id call =>
      TObject false [("pt", TStr "tool_call"); ("id", TStr id); ("call", reify_call n h call)]
  | DMessageToolResponsePart id response error _environment =>
      TObject false
        ([("pt", TStr "tool_response"); ("id", TStr id);
          ("response", reify_response response)]
           ++ oprop "error" reify_error error
           ++ oprop "_environment"
                (fun e => TStr (DMessageToolEnvironment_string e)) _environment)
  | DMetaPlaceholderPart pText =>
      TObject false [("pt", TStr "ph"); ("pText", TStr pText)]
  | _DMetaSentinelPart =>
      TObject false [("pt", TStr "_pt_sentinel")]
  end.

Definition reify_fragment (n : nat) (h : Heap) (fragment : DMessageFragment) : Tree :=
  match fragment with
  | ContentFragment f =>
      TObject false [("ft", TStr "content"); ("fId", TStr (cf_fId f));
                     ("part", reify_part n h (cf_part f))]
  | AttachmentFragment f =>
      TObject false [("ft", TStr "attachment"); ("fId", TStr (af_fId f));
                     ("title", TStr (af_title f)); ("caption", TStr (af_caption f));
                     ("created", TNum (af_created f));
                     ("part", reify_part n h (af_part f))]
  | SentinelFragment f =>
      TObject false [("ft", TStr "_ft_sentinel"); ("fId", TStr (sf_fId f))]
  end.

(** [delete t[k]] *)
Definition tree_delete (k : string) (t : Tree) : Tree :=
  match t with
  | TObject a ps => TObject a (List.filter (fun kv => negb (String.eqb (fst kv) k)) ps)
  | _ => t
  end.

(** Stripping the identity of a fragment: [fId], and [created] for an
    attachment. *)
Definition strip (fragment : DMessageFragment) (t : Tree) : Tree :=
  if isAttachmentFragment fragment
  then tree_delete "created" (tree_delete "fId" t)
  else tree_delete "fId" t.

Definition is_defined (t : Tree) : bool :=
  match t with
  | TUndefined => false
  | _ => true
  end.

(** A property that holds [undefined] reads like a missing one; [prune]
    forgets such properties at every depth. *)
Fixpoint prune (t : Tree) : Tree :=
  match t with
  | TObject a ps =>
      TObject a (List.filter (fun kv => is_defined (snd kv))
                   (map (fun kv => (fst kv, prune (snd kv))) ps))
  | _ => t
  end.

(** Deep equality of what is read: equal kinds, equal keys, equal values,
    with a property holding [undefined] taken as missing. The keys are
    compared in their order, which asks more than a comparison that ignores
    the order. *)
Definition deep_equal (t1 t2 : Tree) : Prop := prune t1 = prune t2.

(** Deep equality that tells a missing property from one holding
    [undefined]. *)
Definition strict_deep_equal (t1 t2 : Tree) : Prop := t1 = t2.

(** The fragment as read once its identity is stripped. *)
Definition content_of (n : nat) (h : Heap) (fragment : DMessageFragment) : Tree :=
  strip fragment (reify_fragment n h fragment).

(** ** Well-formed stores and fragments *)

Definition val_ok (h : Heap) (v : JsValue) : bool :=
  match v with
  | JRef l => l <? length h
  | _ => true
  end.

(** No object of the store holds an address outside the store. *)
Definition heap_ok (h : Heap) : bool :=
  forallb (fun o => forallb (fun kv => val_ok h (snd kv)) (obj_props o)) h.

Definition in_heap (h : Heap) (o : Optional loc) : bool :=
  match o with
  | Present l => l <? length h
  | _ => true
  end.

(** The source documents [_args_schema] as a JSON Schema
    [{ type: 'object', properties: { ... } }]: an object, not an array. *)
Definition plain_object_in (h : Heap) (o : Optional loc) : bool :=
  match o with
  | Present l =>
      match h !! l with
      | Some obj => negb (obj_array obj)
      | None => false
      end
  | _ => true
  end.

Definition part_ok (h : Heap) (part : DMessagePart) : bool :=
  match part with
  | DMessageDocPart _ _ _ meta => in_heap h meta
  | DMessageToolInvocationPart _ (DMessageToolInvocationFunctionCall _ _ _ _args_schema) =>
      plain_object_in h _args_schema
  | _ => true
  end.

Definition fragment_ok (h : Heap) (fragment : DMessageFragment) : bool :=
  match fragment with
  | ContentFragment f => part_ok h (cf_part f)
  | AttachmentFragment f => part_ok h (af_part f)
  | SentinelFragment _ => true
  end.

(** [obj[k] = v] on the object at [l]: the value of an existing key is
    replaced in place, a new key is added at the end. *)
Fixpoint props_set (k : string) (v : JsValue) (ps : list (string * JsValue))
    : list (string * JsValue) :=
  match ps with
  | [] => [(k, v)]
  | (k', v') :: ps' =>
      if String.eqb k' k then (k, v) :: ps' else (k', v') :: props_set k v ps'
  end.

Definition heap_set (l : loc) (k : string) (v : JsValue) (h : Heap) : Heap :=
  match h !! l with
  | Some o => <[l := {| obj_array := obj_array o; obj_props := props_set k v (obj_props o) |}]> h
  | None => h
  end.

Definition props_get (k : string) (ps : list (string * JsValue)) : JsValue :=
  match List.find (fun kv => String.eqb (fst kv) k) ps with
  | Some kv => snd kv
  | None => JUndefined
  end.

(** [String.prototype.includes] *)
Fixpoint includes (needle hay : string) : bool :=
  String.prefix needle hay ||
  match hay with
  | EmptyString => false
  | String _ hay' => includes needle hay'
  end.

(** ** Vocabulary of the statements *)

(** The worlds that a computation of this module can reach from [w]: the
    store has grown at its end, the generator and the clock have been read
    [i] and [t] more times. *)
Definition advance (w : World) (ext : Heap) (i t : nat) : World :=
  {| w_heap := w_heap w ++ ext; w_tokens := w_tokens w;
     w_agiId_calls := i + w_agiId_calls w;
     w_clock := w_clock w; w_now_calls := t + w_now_calls w |}.

(** What [_duplicatePart] gives on a part whose addresses are valid. *)
Record duplicated_part (w : World) (part part' : DMessagePart) (ext : list JsObject) : Prop := {
  dp_heap_ok : heap_ok (w_heap w ++ ext) = true;
  dp_part_ok : part_ok (w_heap w ++ ext) part' = true;
  dp_pt : pt part' = pt part;
  dp_content : content_part part' = content_part part;
  dp_attachment : attachment_part part' = attachment_part part;
  dp_equal : forall n,
    deep_equal (reify_part n (w_heap w ++ ext) part') (reify_part n (w_heap w) part)
}.


Definition fragment_part (fragment : DMessageFragment) : option DMessagePart :=
  match fragment with
  | ContentFragment f => Some (cf_part f)
  | AttachmentFragment f => Some (af_part f)
  | SentinelFragment _ => None
  end.

Definition fragment_title (fragment : DMessageFragment) : option string :=
  match fragment with
  | AttachmentFragment f => Some (af_title f)
  | _ => None
  end.

Definition fragment_caption (fragment : DMessageFragment) : option string :=
  match fragment with
  | AttachmentFragment f => Some (af_caption f)
  | _ => None
  end.

Definition fragment_created (fragment : DMessageFragment) : option Z :=
  match fragment with
  | AttachmentFragment f => Some (af_created f)
  | _ => None
  end.

(** [F'], read in the store [h'], has the tags and the content of [F], read
    in the store [h]. *)
Definition same_content (h h' : Heap) (F F' : DMessageFragment) : Prop :=
  ft F' = ft F /\
  option_map pt (fragment_part F') = option_map pt (fragment_part F) /\
  fragment_title F' = fragment_title F /\
  fragment_caption F' = fragment_caption F /\
  forall n, deep_equal (content_of n h' F') (content_of n h F).

(** What [_duplicateFragment] gives on a fragment whose addresses are valid,
    run in the world [w]. *)
Record duplicated_fragment (w : World) (F F' : DMessageFragment) (ext : list JsObject)
    : Prop := {
  df_heap_ok : heap_ok (w_heap w ++ ext) = true;
  df_fragment_ok : fragment_ok (w_heap w ++ ext) F' = true;
  df_fId : fId F' = w_tokens w "chat-dfragment" (w_agiId_calls w);
  df_created :
    fragment_created F'
    = if isAttachmentFragment F then Some (w_clock w (w_now_calls w)) else None;
  df_well_typed : well_typed F' = well_typed F;
  df_same : same_content (w_heap w) (w_heap w ++ ext) F F'
}.

(** The generator is fresh for an identifier in the world [w]: no call from
    now on returns it. *)
Definition agiId_fresh (w : World) (scope : string) (used : DMessageFragmentId) : Prop :=
  forall k, w_agiId_calls w <= k -> w_tokens w scope k <> used.

(** [obj.k1.k2...kn = v], starting from the object at [l]. A path that
    leaves the store, or runs into a value that is not an object, writes
    nothing. *)
Fixpoint write_path (h : Heap) (l : loc) (path : list string) (v : JsValue) : Heap :=
  match path with
  | [] => h
  | [k] => heap_set l k v h
  | k :: path' =>
      match h !! l with
      | Some o =>
          match props_get k (obj_props o) with
          | JRef l' => write_path h l' path' v
          | _ => h
          end
      | None => h
      end
  end.

(** The optional keys of a part are all written (with a value or with
    [undefined]), as in every part that the factories build. *)
Definition written {A} (o : Optional A) : bool :=
  match o with
  | Absent => false
  | _ => true
  end.

Definition keys_written (part : DMessagePart) : bool :=
  match part with
  | DMessageDocPart _ (DataInlineText _ mimeType) _ meta => written mimeType && written meta
  | DMessageImageRefPart _ altText width height =>
      written altText && written width && written height
  | DMessageToolInvocationPart _
      (DMessageToolInvocationFunctionCall _ _ _description _args_schema) =>
      written _description && written _args_schema
  | DMessageToolInvocationPart _ (DMessageToolInvocationCodeExecution variant arguments) =>
      written variant && written (language arguments)
  | DMessageToolResponsePart _ (DMessageToolResponseFunctionCall _ _name) error _environment =>
      written _name && written error && written _environment
  | DMessageToolResponsePart _ (DMessageToolResponseCodeExecution _ _variant)
      error _environment =>
      written _variant && written error && written _environment
  | _ => true
  end.

(** ** Sample inputs *)

(** A store with the schema of a function call,
    [{ type: 'object', properties: { city: { type: 'string' } } }],
    and the meta object of a document,
    [{ srcFileName: 'notes.txt', srcFileSize: 12 }]. *)
Definition sample_heap : Heap :=
  [ {| obj_array := false;
       obj_props := [("type", JStr "object"); ("properties", JRef 1)] |};
    {| obj_array := false; obj_props := [("city", JRef 2)] |};
    {| obj_array := false; obj_props := [("type", JStr "string")] |};
    {| obj_array := false;
       obj_props := [("srcFileName", JStr "notes.txt"); ("srcFileSize", JNum 12)] |} ].

(** A generator that numbers its tokens, after five calls; a clock that
    advances by one millisecond per reading. *)
Definition sample_world : World :=
  {| w_heap := sample_heap;
     w_tokens := fun _ k => "id" +:+ pretty k;
     w_agiId_calls := 5;
     w_clock := fun k => (1700000000000 + Z.of_nat k)%Z;
     w_now_calls := 0 |}.

Definition sample_tool_call : DMessageFragment :=
  ContentFragment
    {| cf_fId := "id1";
       cf_part := DMessageToolInvocationPart "call_1"
                    (DMessageToolInvocationFunctionCall "get_weather"
                       (Some "{}") Absent (Present 0)) |}.

Definition sample_text : DMessageFragment :=
  ContentFragment {| cf_fId := "id2"; cf_part := DMessageTextPart "hello" |}.

Definition sample_doc : DMessageFragment :=
  AttachmentFragment
    {| af_fId := "id3"; af_title := "notes.txt"; af_caption := "from clipboard";
       af_created := 1600000000000;
       af_part := DMessageDocPart text_plain (DataInlineText "some notes" Absent)
                    "notes.txt" (Present 3) |}.

Definition sample_error : DMessageFragment :=
  ContentFragment {| cf_fId := "id4"; cf_part := DMessageErrorPart "rate limited" |}.

Definition sample_sequence : list DMessageFragment :=
  [sample_text; sample_doc; sample_error].

(** ** Vocabulary of the further properties *)

(** The address of the schema of a function call, and of the meta object of
    a document, when the key holds one. *)
Definition part_schema (part : DMessagePart) : option loc :=
  match part with
  | DMessageToolInvocationPart _ (DMessageToolInvocationFunctionCall _ _ _ _args_schema) =>
      read _args_schema
  | _ => None
  end.

Definition part_meta (part : DMessagePart) : option loc :=
  match part with
  | DMessageDocPart _ _ _ meta => read meta
  | _ => None
  end.

Definition schema_address (fragment : DMessageFragment) : option loc :=
  match fragment_part fragment with
  | Some part => part_schema part
  | None => None
  end.

Definition meta_address (fragment : DMessageFragment) : option loc :=
  match fragment_part fragment with
  | Some part => part_meta part
  | None => None
  end.

Definition fragment_keys_written (fragment : DMessageFragment) : bool :=
  match fragment_part fragment with
  | Some part => keys_written part
  | None => true
  end.

(** The objects that the duplication of a part, of a fragment and of a
    sequence adds to the store [h]: one copy for each schema of a function
    call. *)
Definition part_allocation (h : Heap) (part : DMessagePart) : list JsObject :=
  match part_schema part with
  | Some l =>
      match h !! l with
      | Some o => [{| obj_array := false; obj_props := obj_props o |}]
      | None => []
      end
  | None => []
  end.

Definition fragment_allocation (h : Heap) (fragment : DMessageFragment) : list JsObject :=
  match fragment_part fragment with
  | Some part => part_allocation h part
  | None => []
  end.

Fixpoint sequence_allocation (h : Heap) (seq : list DMessageFragment) : list JsObject :=
  match seq with
  | [] => []
  | F :: seq' =>
      fragment_allocation h F
        ++ sequence_allocation (h ++ fragment_allocation h F) seq'
  end.

Definition count_attachments (seq : list DMessageFragment) : nat :=
  length (List.filter isAttachmentFragment seq).

Definition has_schema (fragment : DMessageFragment) : bool :=
  match schema_address fragment with
  | Some _ => true
  | None => false
  end.

Definition count_schemas (seq : list DMessageFragment) : nat :=
  length (List.filter has_schema seq).

(** The schema of [F'] is a new object of [h'], outside [h], with the very
    property list of the schema of [F]. *)
Definition schema_copied (h h' : Heap) (F F' : DMessageFragment) : Prop :=
  match schema_address F, schema_address F' with
  | Some l, Some l' =>
      length h <= l' /\
      exists o, h !! l = Some o /\
                h' !! l' = Some {| obj_array := false; obj_props := obj_props o |}
  | None, None => True
  | _, _ => False
  end.

(** [F'], read in [h'], reads exactly like [F], read in [h], once the
    identity is stripped: missing keys are told from keys holding
    [undefined]. *)
Definition same_reading (h h' : Heap) (F F' : DMessageFragment) : Prop :=
  forall n, strict_deep_equal (content_of n h' F') (content_of n h F).

(** A sequence in which every optional key is written: a text, an image
    attachment without dimensions, a function call with its schema. *)
Definition sample_keyed_sequence : list DMessageFragment :=
  [ sample_text;
    AttachmentFragment
      {| af_fId := "id8"; af_title := "cat.png"; af_caption := "from clipboard";
         af_created := 1600000000000;
         af_part := DMessageImageRefPart (DataRefDBlob "abc" "image/png" 1024)
                      (Present "a cat") Undefined Undefined |};
    ContentFragment
      {| cf_fId := "id9";
         cf_part := DMessageToolInvocationPart "call_2"
                      (DMessageToolInvocationFunctionCall "get_weather"
                         None Undefined (Present 0)) |} ].

(** [F] is what a fragment factory returns in the world [w], which it leaves
    as [w']: it carries the next token, and for an attachment the next
    reading of the clock; the store is untouched; [F] is well typed. *)
Definition made_in (w : World) (F : DMessageFragment) (w' : World) : Prop :=
  w' = advance w [] 1 (if isAttachmentFragment F then 1 else 0) /\
  fId F = w_tokens w "chat-dfragment" (w_agiId_calls w) /\
  fragment_created F
  = (if isAttachmentFragment F then Some (w_clock w (w_now_calls w)) else None) /\
  well_typed F = true.

(** * Properties *)

(** ** Running the primitives *)

Lemma bind_Some {A B} (m : M A) (f : A -> M B) w a w' :
  m w = Some (a, w') -> bind m f w = f a w'.
Proof. intros H. unfold bind. now rewrite H. Qed.

Lemma bind_ret {A B} (a : A) (f : A -> M B) w : bind (ret a) f w = f a w.
Proof. reflexivity. Qed.

Lemma advance_nil w : advance w [] 0 0 = w.
Proof. destruct w. unfold advance. simpl. now rewrite app_nil_r. Qed.

Lemma advance_advance w e1 i1 t1 e2 i2 t2 :
  advance (advance w e1 i1 t1) e2 i2 t2 = advance w (e1 ++ e2) (i2 + i1) (t2 + t1).
Proof.
  unfold advance. simpl. f_equal; [apply eq_sym, app_assoc | lia | lia].
Qed.

Lemma agiId_run scope w :
  agiId scope w = Some (w_tokens w scope (w_agiId_calls w), advance w [] 1 0).
Proof. unfold agiId, advance. simpl. now rewrite app_nil_r. Qed.

Lemma Date_now_run w :
  Date_now w = Some (w_clock w (w_now_calls w), advance w [] 0 1).
Proof. unfold Date_now, advance. simpl. now rewrite app_nil_r. Qed.

Lemma object_spread_run w l o :
  w_heap w !! l = Some o ->
  object_spread l w
  = Some (length (w_heap w),
          advance w [{| obj_array := false; obj_props := obj_props o |}] 0 0).
Proof.
  intros H. unfold object_spread, bind, heap_get. rewrite H. reflexivity.
Qed.

(** ** Reading a store that has grown *)

Lemma val_ok_app h ext v : val_ok h v = true -> val_ok (h ++ ext) v = true.
Proof.
  destruct v; simpl; trivial.
  rewrite !Nat.ltb_lt, length_app. lia.
Qed.

Lemma heap_ok_lookup h l o k v :
  heap_ok h = true -> h !! l = Some o -> In (k, v) (obj_props o) -> val_ok h v = true.
Proof.
  unfold heap_ok. rewrite forallb_forall. intros Hh Hl Hin.
  assert (Ho : In o h).
  { apply list_elem_of_In, list_elem_of_lookup. eauto. }
  specialize (Hh o Ho). rewrite forallb_forall in Hh. apply (Hh (k, v) Hin).
Qed.

(** Reading through a valid address is not changed by allocations. *)
Lemma reify_val_app n h ext v :
  heap_ok h = true -> val_ok h v = true ->
  reify_val n (h ++ ext) v = reify_val n h v.
Proof.
  intros Hh. revert v. induction n as [|n IH]; intros v Hv; destruct v; simpl; trivial.
  simpl in Hv. apply Nat.ltb_lt in Hv.
  rewrite lookup_app_l by exact Hv.
  destruct (h !! l) as [o|] eqn:Hl; trivial.
  f_equal. apply map_ext_in. intros [k v] Hin. simpl. f_equal.
  apply IH. eapply heap_ok_lookup; eauto.
Qed.

(** Nor by a write to an address that the store did not hold. *)
Lemma reify_val_outside n h ext l o v :
  heap_ok h = true -> val_ok h v = true -> length h <= l ->
  reify_val n (<[l := o]> (h ++ ext)) v = reify_val n h v.
Proof.
  intros Hh. revert v. induction n as [|n IH]; intros v Hv Hl; destruct v; simpl; trivial.
  simpl in Hv. apply Nat.ltb_lt in Hv.
  rewrite list_lookup_insert_ne by lia.
  rewrite lookup_app_l by exact Hv.
  destruct (h !! l0) as [o0|] eqn:Hl0; trivial.
  f_equal. apply map_ext_in. intros [k v] Hin. simpl. f_equal.
  apply IH; [|exact Hl]. eapply heap_ok_lookup; eauto.
Qed.

(** The object made by a spread reads like its source, when the source is a
    plain object. *)
Lemma reify_spread n h l o :
  heap_ok h = true -> h !! l = Some o -> obj_array o = false ->
  reify_val n (h ++ [{| obj_array := false; obj_props := obj_props o |}]) (JRef (length h))
  = reify_val n h (JRef l).
Proof.
  intros Hh Hl Ha. destruct n as [|n]; simpl; trivial.
  rewrite Hl, Ha.
  rewrite lookup_app_r by lia. rewrite Nat.sub_diag. simpl.
  f_equal. apply map_ext_in. intros [k v] Hin. simpl. f_equal.
  apply reify_val_app; trivial. eapply heap_ok_lookup; eauto.
Qed.

Lemma heap_ok_app h o :
  heap_ok h = true ->
  forallb (fun kv => val_ok h (snd kv)) (obj_props o) = true ->
  heap_ok (h ++ [o]) = true.
Proof.
  unfold heap_ok. intros Hh Ho. rewrite forallb_app. simpl.
  rewrite andb_true_r. apply andb_true_iff. split.
  - rewrite forallb_forall in *. intros o' Hin. specialize (Hh o' Hin).
    rewrite forallb_forall in *. intros kv Hkv. apply val_ok_app. auto.
  - rewrite forallb_forall in *. intros kv Hkv. apply val_ok_app. auto.
Qed.

Lemma heap_ok_spread h l o :
  heap_ok h = true -> h !! l = Some o ->
  heap_ok (h ++ [{| obj_array := false; obj_props := obj_props o |}]) = true.
Proof.
  intros Hh Hl. apply heap_ok_app; trivial. simpl.
  apply forallb_forall. intros [k v] Hin. simpl. eapply heap_ok_lookup; eauto.
Qed.

Lemma part_ok_app h ext part : part_ok h part = true -> part_ok (h ++ ext) part = true.
Proof.
  destruct part as [? ? ? meta| | | |? call| | |]; simpl; trivial.
  - destruct meta; simpl; trivial. rewrite !Nat.ltb_lt, length_app. lia.
  - destruct call as [? ? ? s|]; trivial. destruct s as [| |l]; simpl; trivial.
    destruct (h !! l) as [o|] eqn:Hl; [|discriminate].
    rewrite (lookup_app_l_Some _ _ _ _ Hl). trivial.
Qed.

Lemma fragment_ok_app h ext F : fragment_ok h F = true -> fragment_ok (h ++ ext) F = true.
Proof. destruct F; simpl; trivial; apply part_ok_app. Qed.

Lemma reify_part_app n h ext part :
  heap_ok h = true -> part_ok h part = true ->
  reify_part n (h ++ ext) part = reify_part n h part.
Proof.
  intros Hh Hp.
  destruct part as [? ? ? meta| | | |? call| | |]; simpl; trivial.
  - destruct meta as [| |l]; simpl; trivial. simpl in Hp.
    unfold reify_ref. rewrite reify_val_app; trivial.
  - destruct call as [? ? ? s|]; trivial. destruct s as [| |l]; simpl; trivial.
    simpl in Hp. unfold reify_ref. rewrite reify_val_app; trivial.
    simpl. destruct (h !! l) eqn:Hl; [|discriminate].
    apply Nat.ltb_lt. eapply lookup_lt_Some; eauto.
Qed.

Lemma reify_fragment_app n h ext F :
  heap_ok h = true -> fragment_ok h F = true ->
  reify_fragment n (h ++ ext) F = reify_fragment n h F.
Proof.
  intros Hh HF. destruct F; simpl; trivial; rewrite reify_part_app; trivial.
Qed.

Lemma content_of_app n h ext F :
  heap_ok h = true -> fragment_ok h F = true ->
  content_of n (h ++ ext) F = content_of n h F.
Proof. intros. unfold content_of. now rewrite reify_fragment_app. Qed.

(** ** Duplication of one part *)

Lemma duplicateDataReference_id ref : _duplicateDataReference ref = ref.
Proof. now destruct ref. Qed.


Lemma reify_part_object n h part : exists ps, reify_part n h part = TObject false ps.
Proof. destruct part; simpl; eauto. Qed.

Lemma prune_defined_object a ps : is_defined (prune (TObject a ps)) = true.
Proof. reflexivity. Qed.

Ltac unchanged_store part' :=
  exists part', []; split;
  [ now rewrite advance_nil
  | constructor; rewrite ?app_nil_r; trivial ].

Lemma duplicatePart_run w part :
  heap_ok (w_heap w) = true -> part_ok (w_heap w) part = true ->
  exists part' ext,
    _duplicatePart part w = Some (part', advance w ext 0 0) /\
    duplicated_part w part part' ext.
Proof.
  intros Hh Hp.
  destruct part as [type data ref meta|error|dataRef altText width height|text
                   |id call|id response error env|pText|].
  - unchanged_store (createDMessageDocPart type (_duplicateInlineData data) ref (read meta)).
    + destruct meta; trivial.
    + intros n. destruct data as [text mimeType].
      destruct mimeType, meta; reflexivity.
  - unchanged_store (createDMessageErrorPart error). reflexivity.
  - unchanged_store (createDMessageImageRefPart (_duplicateDataReference dataRef)
                       (read altText) (read width) (read height)).
    intros n. destruct dataRef, altText, width, height; reflexivity.
  - unchanged_store (createDMessageTextPart text). reflexivity.
  - destruct call as [name args desc schema|variant arguments].
    + destruct schema as [| |l].
      * unchanged_store (createDMessageFunctionCallInvocationPart id name args (read desc) None).
        intros n. destruct desc; reflexivity.
      * unchanged_store (createDMessageFunctionCallInvocationPart id name args (read desc) None).
        intros n. destruct desc; reflexivity.
      * simpl in Hp. destruct (w_heap w !! l) as [o|] eqn:Hl; [|discriminate].
        apply negb_true_iff in Hp.
        exists (createDMessageFunctionCallInvocationPart id name args (read desc)
                  (Some (length (w_heap w)))),
               [{| obj_array := false; obj_props := obj_props o |}].
        split.
        { simpl. rewrite (bind_Some _ _ _ _ _ (bind_Some _ _ _ _ _ (object_spread_run w l o Hl))).
          reflexivity. }
        constructor; trivial.
        -- eapply heap_ok_spread; eauto.
        -- simpl. rewrite lookup_app_r by lia. rewrite Nat.sub_diag. reflexivity.
        -- intros n. unfold deep_equal. simpl. unfold reify_ref.
           rewrite (reify_spread n _ l o Hh Hl Hp). destruct desc; reflexivity.
    + unchanged_store (createDMessageCodeExecutionInvocationPart id (code arguments)
                         (read (language arguments)) (read variant)).
      intros n. destruct arguments as [c lang]. destruct variant, lang; reflexivity.
  - destruct response as [result name|result variant].
    + unchanged_store (createDMessageFunctionCallResponsePart id result (read name)
                         (read error) (read env)).
      intros n. destruct name, error, env; reflexivity.
    + unchanged_store (createDMessageCodeExecutionResponsePart id result (read variant)
                         (read error) (read env)).
      intros n. destruct variant, error, env; reflexivity.
  - unchanged_store (createDMetaPlaceholderPart pText). reflexivity.
  - unchanged_store createDMetaSentinelPart. reflexivity.
Qed.

(** ** Duplication of one fragment *)

Lemma createContentFragment_run part w :
  _createContentFragment part w
  = Some ({| cf_fId := w_tokens w "chat-dfragment" (w_agiId_calls w); cf_part := part |},
          advance w [] 1 0).
Proof.
  unfold _createContentFragment. rewrite (bind_Some _ _ _ _ _ (agiId_run _ w)). reflexivity.
Qed.

Lemma createAttachmentFragment_run title caption part w :
  _createAttachmentFragment title caption part w
  = Some ({| af_fId := w_tokens w "chat-dfragment" (w_agiId_calls w);
             af_title := title; af_caption := caption;
             af_created := w_clock w (w_now_calls w); af_part := part |},
          advance w [] 1 1).
Proof.
  unfold _createAttachmentFragment.
  rewrite (bind_Some _ _ _ _ _ (agiId_run _ w)).
  rewrite (bind_Some _ _ _ _ _ (Date_now_run _)).
  unfold ret. rewrite advance_advance. reflexivity.
Qed.

Lemma createSentinelFragment_run w :
  _createSentinelFragment w
  = Some ({| sf_fId := w_tokens w "chat-dfragment" (w_agiId_calls w) |}, advance w [] 1 0).
Proof.
  unfold _createSentinelFragment. rewrite (bind_Some _ _ _ _ _ (agiId_run _ w)). reflexivity.
Qed.

Lemma prune_content_of_content n h f :
  prune (content_of n h (ContentFragment f))
  = TObject false [("ft", TStr "content"); ("part", prune (reify_part n h (cf_part f)))].
Proof.
  destruct (reify_part_object n h (cf_part f)) as [ps E].
  unfold content_of. simpl. rewrite E. reflexivity.
Qed.

Lemma prune_content_of_attachment n h f :
  prune (content_of n h (AttachmentFragment f))
  = TObject false [("ft", TStr "attachment"); ("title", TStr (af_title f));
                   ("caption", TStr (af_caption f));
                   ("part", prune (reify_part n h (af_part f)))].
Proof.
  destruct (reify_part_object n h (af_part f)) as [ps E].
  unfold content_of. simpl. rewrite E. reflexivity.
Qed.

Lemma duplicateFragment_run w F :
  heap_ok (w_heap w) = true -> fragment_ok (w_heap w) F = true ->
  exists F' ext,
    _duplicateFragment F w
    = Some (F', advance w ext 1 (if isAttachmentFragment F then 1 else 0)) /\
    duplicated_fragment w F F' ext.
Proof.
  intros Hh HF. destruct F as [f|f|f]; simpl in HF.
  - destruct (duplicatePart_run w (cf_part f) Hh HF) as (part' & ext & Hrun & D).
    exists (ContentFragment {| cf_fId := w_tokens w "chat-dfragment" (w_agiId_calls w);
                               cf_part := part' |}), ext.
    split.
    { simpl. rewrite (bind_Some _ _ _ _ _ Hrun). reflexivity. }
    destruct D. constructor; simpl; trivial.
    repeat split; simpl; try congruence.
    intros n. unfold deep_equal. rewrite !prune_content_of_content. simpl.
    now rewrite (dp_equal0 n).
  - destruct (duplicatePart_run w (af_part f) Hh HF) as (part' & ext & Hrun & D).
    exists (AttachmentFragment
              {| af_fId := w_tokens w "chat-dfragment" (w_agiId_calls w);
                 af_title := af_title f; af_caption := af_caption f;
                 af_created := w_clock w (w_now_calls w);
                 af_part := part' |}), ext.
    split.
    { simpl. rewrite (bind_Some _ _ _ _ _ Hrun). reflexivity. }
    destruct D. constructor; simpl; trivial.
    repeat split; simpl; try congruence.
    intros n. unfold deep_equal. rewrite !prune_content_of_attachment. simpl.
    now rewrite (dp_equal0 n).
  - exists (SentinelFragment {| sf_fId := w_tokens w "chat-dfragment" (w_agiId_calls w) |}), [].
    split.
    { simpl. rewrite (bind_Some _ _ _ _ _ (createSentinelFragment_run w)). reflexivity. }
    constructor; rewrite ?app_nil_r; trivial.
    repeat split; trivial.
Qed.

(** ** Duplication of a sequence *)

Lemma duplicateDMessageFragments_cons F seq w F' w1 out w2 :
  _duplicateFragment F w = Some (F', w1) ->
  duplicateDMessageFragments seq w1 = Some (out, w2) ->
  duplicateDMessageFragments (F :: seq) w = Some (F' :: out, w2).
Proof.
  intros H1 H2. unfold duplicateDMessageFragments in *. simpl.
  rewrite (bind_Some _ _ _ _ _ H1), (bind_Some _ _ _ _ _ H2). reflexivity.
Qed.

Lemma same_content_app_l h e1 e2 F F' :
  heap_ok (h ++ e1) = true -> fragment_ok (h ++ e1) F' = true ->
  same_content h (h ++ e1) F F' -> same_content h (h ++ e1 ++ e2) F F'.
Proof.
  intros Hh HF (Hft & Hpt & Ht & Hc & Heq). repeat split; trivial.
  intros n. rewrite app_assoc, content_of_app; trivial.
Qed.

Lemma same_content_app_r h e1 e2 F F' :
  heap_ok h = true -> fragment_ok h F = true ->
  same_content (h ++ e1) (h ++ e1 ++ e2) F F' -> same_content h (h ++ e1 ++ e2) F F'.
Proof.
  intros Hh HF (Hft & Hpt & Ht & Hc & Heq). repeat split; trivial.
  intros n. rewrite <- (content_of_app n h e1 F); trivial.
Qed.

Lemma same_content_trans h1 h2 h3 F1 F2 F3 :
  same_content h1 h2 F1 F2 -> same_content h2 h3 F2 F3 -> same_content h1 h3 F1 F3.
Proof.
  intros (A1 & A2 & A3 & A4 & A5) (B1 & B2 & B3 & B4 & B5).
  do 4 (split; [congruence|]).
  intros n. unfold deep_equal in *. now rewrite B5, A5.
Qed.

Lemma Forall2_same_content_app_r h e1 e2 seq out :
  heap_ok h = true -> forallb (fragment_ok h) seq = true ->
  Forall2 (same_content (h ++ e1) (h ++ e1 ++ e2)) seq out ->
  Forall2 (same_content h (h ++ e1 ++ e2)) seq out.
Proof.
  intros Hh Hseq HA. induction HA as [|F F' seq out HF HA IH]; constructor.
  - simpl in Hseq. apply andb_true_iff in Hseq as [HF0 _]. now apply same_content_app_r.
  - simpl in Hseq. apply andb_true_iff in Hseq as [_ Hseq]. auto.
Qed.

Lemma duplicateDMessageFragments_run w seq :
  heap_ok (w_heap w) = true -> forallb (fragment_ok (w_heap w)) seq = true ->
  exists out ext t,
    duplicateDMessageFragments seq w = Some (out, advance w ext (length seq) t) /\
    heap_ok (w_heap w ++ ext) = true /\
    forallb (fragment_ok (w_heap w ++ ext)) out = true /\
    Forall2 (same_content (w_heap w) (w_heap w ++ ext)) seq out /\
    (forall i F', out !! i = Some F' ->
       fId F' = w_tokens w "chat-dfragment" (i + w_agiId_calls w)) /\
    Forall2 (fun F F' => well_typed F' = well_typed F) seq out.
Proof.
  revert w. induction seq as [|F seq IH]; intros w Hh Hseq.
  - exists [], [], 0. rewrite advance_nil, app_nil_r.
    repeat split; trivial; try constructor. intros i F' H. discriminate.
  - simpl in Hseq. apply andb_true_iff in Hseq as [HF Hseq].
    destruct (duplicateFragment_run w F Hh HF) as (F' & e1 & Hrun & D).
    destruct D as [Hh1 HF1 Hid _ Hwt Hsame].
    set (w1 := advance w e1 1 (if isAttachmentFragment F then 1 else 0)) in *.
    assert (Hseq1 : forallb (fragment_ok (w_heap w1)) seq = true).
    { apply forallb_forall. intros G HG. apply fragment_ok_app.
      rewrite forallb_forall in Hseq. auto. }
    destruct (IH w1 Hh1 Hseq1) as (out & e2 & t & Hrun2 & Hh2 & Hout & Hall & Hids & Hwts).
    exists (F' :: out), (e1 ++ e2), (t + (if isAttachmentFragment F then 1 else 0)).
    split.
    { erewrite duplicateDMessageFragments_cons; [|exact Hrun|exact Hrun2].
      unfold w1. rewrite advance_advance. simpl length.
      now rewrite Nat.add_1_r. }
    simpl w_heap in *. rewrite <- app_assoc in Hh2, Hout, Hall.
    repeat split; trivial.
    + simpl. rewrite Hout, andb_true_r. rewrite app_assoc. now apply fragment_ok_app.
    + constructor.
      * now apply same_content_app_l.
      * now apply Forall2_same_content_app_r.
    + intros [|i] G HG; simpl in HG.
      * now inversion HG; subst.
      * rewrite (Hids i G HG). simpl. f_equal. lia.
    + constructor; trivial.
Qed.

(** ** Semantic equality and fresh identity of a duplicate *)

Lemma duplicate_one w F :
  heap_ok (w_heap w) = true -> fragment_ok (w_heap w) F = true ->
  exists F' ext,
    duplicateDMessageFragments [F] w
    = Some ([F'], advance w ext 1 (if isAttachmentFragment F then 1 else 0)) /\
    duplicated_fragment w F F' ext.
Proof.
  intros Hh HF.
  destruct (duplicateFragment_run w F Hh HF) as (F' & ext & Hrun & D).
  exists F', ext. split; trivial.
  unfold duplicateDMessageFragments. simpl.
  rewrite (bind_Some _ _ _ _ _ Hrun). reflexivity.
Qed.

(** C1. For every fragment [F] whose addresses are valid in the store,
    [duplicateDMessageFragments([F])] returns one fragment [F'] that, once
    [fId] (and [created], for an attachment) is stripped from both, is
    deep-equal to [F]: same [ft] tag, same [pt] tag, for an attachment the
    same [title] and [caption], and the same payload at every depth of the
    store. Deep equality reads a property holding [undefined] as a missing
    property, as [x.f] does and as the persisted form does. *)
Theorem duplicate_semantic_equality w F :
  heap_ok (w_heap w) = true -> fragment_ok (w_heap w) F = true ->
  exists F' w',
    duplicateDMessageFragments [F] w = Some ([F'], w') /\
    ft F' = ft F /\
    option_map pt (fragment_part F') = option_map pt (fragment_part F) /\
    fragment_title F' = fragment_title F /\
    fragment_caption F' = fragment_caption F /\
    forall n, deep_equal (content_of n (w_heap w') F') (content_of n (w_heap w') F).
Proof.
  intros Hh HF.
  destruct (duplicate_one w F Hh HF) as (F' & ext & Hrun & D).
  destruct D as [_ _ _ _ _ (Hft & Hpt & Ht & Hc & Heq)].
  eexists F', _. split; [exact Hrun|].
  do 4 (split; trivial).
  intros n. simpl w_heap. unfold deep_equal in *.
  rewrite (content_of_app n (w_heap w) ext F Hh HF). apply Heq.
Qed.

Lemma duplicate_semantic_equality_witness :
  heap_ok (w_heap sample_world) = true /\
  fragment_ok (w_heap sample_world) sample_tool_call = true /\
  exists F' w',
    duplicateDMessageFragments [sample_tool_call] sample_world = Some ([F'], w') /\
    ft F' = ft sample_tool_call /\
    option_map pt (fragment_part F') = option_map pt (fragment_part sample_tool_call) /\
    fragment_title F' = fragment_title sample_tool_call /\
    fragment_caption F' = fragment_caption sample_tool_call /\
    forall n, deep_equal (content_of n (w_heap w') F') (content_of n (w_heap w') sample_tool_call).
Proof.
  split; [reflexivity|]. split; [reflexivity|].
  apply (duplicate_semantic_equality sample_world sample_tool_call); reflexivity.
Defined.

(** *** Missing keys and keys holding [undefined]

    The factories write every optional key, so a duplicate never has a
    missing key. When the source has none either, the duplicate reads exactly
    like the source; when the source has one, the two differ in that key
    alone, which [deep_equal] does not look at. *)

Lemma field_read_written {A} (o : Optional A) : written o = true -> field (read o) = o.
Proof. now destruct o. Qed.

Lemma duplicatePart_keys_written w part part' w' :
  _duplicatePart part w = Some (part', w') -> keys_written part' = true.
Proof.
  destruct part as [type data ref meta|error|dataRef altText width height|text
                   |id call|id response error env|pText|]; simpl.
  - intros H. injection H as <- _. destruct data as [t m]. now destruct m, meta.
  - intros H. now injection H as <- _.
  - intros H. injection H as <- _. now destruct altText, width, height.
  - intros H. now injection H as <- _.
  - destruct call as [name args desc schema|variant arguments].
    + destruct schema as [| |l]; simpl.
      * intros H. injection H as <- _. now destruct desc.
      * intros H. injection H as <- _. now destruct desc.
      * unfold bind, object_spread, bind, heap_get.
        destruct (w_heap w !! l); [|discriminate].
        intros H. injection H as <- _. now destruct desc.
    + intros H. injection H as <- _. destruct arguments as [c lang].
      now destruct variant, lang.
  - destruct response; intros H; injection H as <- _;
      [now destruct _name, error, env | now destruct _variant, error, env].
  - intros H. now injection H as <- _.
  - intros H. now injection H as <- _.
Qed.

Lemma duplicatePart_strict w part :
  heap_ok (w_heap w) = true -> part_ok (w_heap w) part = true ->
  keys_written part = true ->
  exists part' ext,
    _duplicatePart part w = Some (part', advance w ext 0 0) /\
    forall n, strict_deep_equal (reify_part n (w_heap w ++ ext) part')
                (reify_part n (w_heap w) part).
Proof.
  intros Hh Hp Hk.
  destruct (duplicatePart_run w part Hh Hp) as (part' & ext & Hrun & D).
  exists part', ext. split; trivial. intros n. unfold strict_deep_equal.
  destruct part as [type data ref meta|error|dataRef altText width height|text
                   |id call|id response error env|pText|]; simpl in Hrun, Hk.
  - injection Hrun as <- Hw. destruct data as [t m].
    apply andb_true_iff in Hk as [Hm Hmeta].
    unfold createDMessageDocPart, _duplicateInlineData, createDMessageDataInlineText.
    rewrite !field_read_written by trivial.
    apply reify_part_app; trivial.
  - injection Hrun as <- Hw. reflexivity.
  - injection Hrun as <- Hw.
    apply andb_true_iff in Hk as [Hk Hh']. apply andb_true_iff in Hk as [Ha Hw'].
    unfold createDMessageImageRefPart.
    rewrite !field_read_written, duplicateDataReference_id by trivial. reflexivity.
  - injection Hrun as <- Hw. reflexivity.
  - destruct call as [name args desc schema|variant arguments].
    + apply andb_true_iff in Hk as [Hd Hs].
      destruct schema as [| |l]; [discriminate| |].
      * injection Hrun as <- Hw. unfold createDMessageFunctionCallInvocationPart.
        simpl read. rewrite field_read_written by trivial. reflexivity.
      * simpl in Hp. destruct (w_heap w !! l) as [o|] eqn:Hl; [|discriminate].
        apply negb_true_iff in Hp. simpl in Hrun.
        rewrite (bind_Some _ _ _ _ _ (bind_Some _ _ _ _ _ (object_spread_run w l o Hl)))
          in Hrun.
        injection Hrun as <- Hw.
        apply app_inv_head in Hw. subst ext.
        unfold createDMessageFunctionCallInvocationPart.
        rewrite field_read_written by trivial. simpl. unfold reify_ref.
        now rewrite (reify_spread n _ l o Hh Hl Hp).
    + injection Hrun as <- Hw. apply andb_true_iff in Hk as [Hv Hl].
      unfold createDMessageCodeExecutionInvocationPart.
      rewrite !field_read_written by trivial. now destruct arguments.
  - destruct response as [result name|result variant];
      injection Hrun as <- Hw;
      apply andb_true_iff in Hk as [Hk He']; apply andb_true_iff in Hk as [Hn He];
      unfold createDMessageFunctionCallResponsePart,
             createDMessageCodeExecutionResponsePart;
      rewrite !field_read_written by trivial; reflexivity.
  - injection Hrun as <- Hw. reflexivity.
  - injection Hrun as <- Hw. reflexivity.
Qed.

(** The document of the samples has no [mimeType] key in its inline data; its
    duplicate has the key, holding [undefined]. *)
Example duplicate_writes_missing_keys :
  exists F' w',
    duplicateDMessageFragments [sample_doc] sample_world = Some ([F'], w') /\
    deep_equal (content_of 1 (w_heap w') F') (content_of 1 (w_heap w') sample_doc) /\
    ~ strict_deep_equal (content_of 1 (w_heap w') F') (content_of 1 (w_heap w') sample_doc).
Proof.
  eexists _, _. split; [reflexivity|]. split; [reflexivity|].
  vm_compute. intros H. discriminate H.
Qed.

(** [fragment_ok] asks the schema of a function call to be a plain object, as
    the source documents it. A store can also hold arrays, and the spread of
    an array is a plain object with the indices as keys: it does not read
    like the array. *)
Example spread_of_array_is_plain_object :
  let w := {| w_heap := [{| obj_array := true; obj_props := [("0", JStr "a")] |}];
              w_tokens := w_tokens sample_world; w_agiId_calls := 0;
              w_clock := w_clock sample_world; w_now_calls := 0 |} in
  exists l' w',
    object_spread 0 w = Some (l', w') /\
    reify_val 1 (w_heap w') (JRef 0) = TObject true [("0", TStr "a")] /\
    reify_val 1 (w_heap w') (JRef l') = TObject false [("0", TStr "a")].
Proof. eexists _, _. repeat split. Qed.

(** A generator whose tokens are pairwise distinct is fresh for every
    identifier that it has issued before. *)
Lemma agiId_fresh_of_distinct w scope k :
  (forall i j, w_tokens w scope i = w_tokens w scope j -> i = j) ->
  k < w_agiId_calls w ->
  agiId_fresh w scope (w_tokens w scope k).
Proof.
  intros Hinj Hk j Hj E. apply Hinj in E. lia.
Qed.

Lemma sample_tokens_distinct scope i j :
  w_tokens sample_world scope i = w_tokens sample_world scope j -> i = j.
Proof.
  simpl. intros E. injection E as E.
  change (pretty i = pretty j) in E. now apply pretty_nat_inj in E.
Qed.

(** C2. If [agiId] is fresh for the identifier of [F] (no call from now on
    returns it), the duplicate of [F] carries a different identifier: it is
    the token that [agiId] returns at the time of duplication. *)
Theorem duplicate_fresh_fId w F :
  heap_ok (w_heap w) = true -> fragment_ok (w_heap w) F = true ->
  agiId_fresh w "chat-dfragment" (fId F) ->
  exists F' w',
    duplicateDMessageFragments [F] w = Some ([F'], w') /\
    fId F' = w_tokens w "chat-dfragment" (w_agiId_calls w) /\
    fId F' <> fId F.
Proof.
  intros Hh HF Hfresh.
  destruct (duplicate_one w F Hh HF) as (F' & ext & Hrun & D).
  eexists F', _. split; [exact Hrun|].
  split; [apply D|]. rewrite (df_fId _ _ _ _ D). apply Hfresh. lia.
Qed.

Lemma duplicate_fresh_fId_witness :
  heap_ok (w_heap sample_world) = true /\
  fragment_ok (w_heap sample_world) sample_tool_call = true /\
  agiId_fresh sample_world "chat-dfragment" (fId sample_tool_call) /\
  exists F' w',
    duplicateDMessageFragments [sample_tool_call] sample_world = Some ([F'], w') /\
    fId F' = w_tokens sample_world "chat-dfragment" (w_agiId_calls sample_world) /\
    fId F' <> fId sample_tool_call.
Proof.
  assert (Hf : agiId_fresh sample_world "chat-dfragment" (fId sample_tool_call)).
  { apply (agiId_fresh_of_distinct sample_world "chat-dfragment" 1).
    - apply sample_tokens_distinct.
    - simpl. lia. }
  split; [reflexivity|]. split; [reflexivity|]. split; [exact Hf|].
  apply (duplicate_fresh_fId sample_world sample_tool_call); [reflexivity|reflexivity|exact Hf].
Defined.

(** ** Sharing between a duplicate and its source *)

Lemma reify_part_outside n h ext l o part :
  heap_ok h = true -> part_ok h part = true -> length h <= l ->
  reify_part n (<[l := o]> (h ++ ext)) part = reify_part n h part.
Proof.
  intros Hh Hp Hl.
  destruct part as [? ? ? meta| | | |? call| | |]; simpl; trivial.
  - destruct meta as [| |m]; simpl; trivial. simpl in Hp.
    unfold reify_ref. rewrite reify_val_outside; trivial.
  - destruct call as [? ? ? s|]; trivial. destruct s as [| |m]; simpl; trivial.
    simpl in Hp. unfold reify_ref. rewrite reify_val_outside; trivial.
    simpl. destruct (h !! m) eqn:Hm; [|discriminate].
    apply Nat.ltb_lt. eapply lookup_lt_Some; eauto.
Qed.

(** A write to an object that duplication has allocated (the copy of a
    schema object, at its own level) is not seen from the source. *)
Lemma write_to_new_object_preserves_source n h ext l k v F :
  heap_ok h = true -> fragment_ok h F = true -> length h <= l ->
  reify_fragment n (heap_set l k v (h ++ ext)) F = reify_fragment n h F.
Proof.
  intros Hh HF Hl. unfold heap_set.
  destruct ((h ++ ext) !! l) as [o|].
  - destruct F; simpl; trivial; rewrite reify_part_outside; trivial.
  - now apply reify_fragment_app.
Qed.

(** C3. The duplicate of a function call shares the objects nested inside
    [_args_schema] with its source: [_args_schema] itself is copied to a new
    address, its [properties] object is not, and the assignment
    [duplicate.part.call._args_schema.properties.city = 'changed'] changes
    what is read from the source. *)
Theorem duplicate_shares_nested_schema :
  exists F' w',
    duplicateDMessageFragments [sample_tool_call] sample_world = Some ([F'], w') /\
    fragment_part F'
    = Some (DMessageToolInvocationPart "call_1"
              (DMessageToolInvocationFunctionCall "get_weather" (Some "{}")
                 Undefined (Present 4))) /\
    reify_fragment 3 (write_path (w_heap w') 4 ["properties"; "city"] (JStr "changed"))
      sample_tool_call
    <> reify_fragment 3 (w_heap w') sample_tool_call.
Proof.
  eexists _, _. split; [reflexivity|]. split; [reflexivity|].
  vm_compute. intros H. discriminate H.
Qed.

(** The duplicate of a document holds the very [meta] object of its source:
    [duplicate.part.meta.srcFileName = 'other.txt'] changes what is read from
    the source. *)
Lemma duplicate_shares_doc_meta :
  exists F' w',
    duplicateDMessageFragments [sample_doc] sample_world = Some ([F'], w') /\
    fragment_part sample_doc
    = Some (DMessageDocPart text_plain (DataInlineText "some notes" Absent)
              "notes.txt" (Present 3)) /\
    fragment_part F'
    = Some (DMessageDocPart text_plain (DataInlineText "some notes" Undefined)
              "notes.txt" (Present 3)) /\
    reify_fragment 1 (write_path (w_heap w') 3 ["srcFileName"] (JStr "other.txt")) sample_doc
    <> reify_fragment 1 (w_heap w') sample_doc.
Proof.
  eexists _, _. split; [reflexivity|]. split; [reflexivity|]. split; [reflexivity|].
  vm_compute. intros H. discriminate H.
Qed.

(** ** Order and length *)

Lemma duplicateDMessageFragments_inv F seq w out w' :
  duplicateDMessageFragments (F :: seq) w = Some (out, w') ->
  exists F' w1 out',
    _duplicateFragment F w = Some (F', w1) /\
    duplicateDMessageFragments seq w1 = Some (out', w') /\
    out = F' :: out'.
Proof.
  unfold duplicateDMessageFragments. simpl. unfold bind at 1.
  destruct (_duplicateFragment F w) as [[F' w1]|] eqn:E1; [|discriminate].
  unfold bind at 1.
  destruct (Array_map _duplicateFragment seq w1) as [[out' w2]|] eqn:E2; [|discriminate].
  intros H. injection H as <- <-. exists F', w1, out'. auto.
Qed.

Lemma duplicateDMessageFragments_length seq w out w' :
  duplicateDMessageFragments seq w = Some (out, w') -> length out = length seq.
Proof.
  revert w out. induction seq as [|F seq IH]; intros w out H.
  - injection H as <- _. reflexivity.
  - apply duplicateDMessageFragments_inv in H as (F' & w1 & out' & _ & H & ->).
    simpl. f_equal. eauto.
Qed.

Lemma duplicateDMessageFragments_steps seq w out w' :
  duplicateDMessageFragments seq w = Some (out, w') ->
  forall i F, seq !! i = Some F ->
  exists F' wi wi',
    out !! i = Some F' /\
    duplicateDMessageFragments (take i seq) w = Some (take i out, wi) /\
    _duplicateFragment F wi = Some (F', wi').
Proof.
  revert w out. induction seq as [|F0 seq IH]; intros w out H i F Hi.
  - discriminate.
  - apply duplicateDMessageFragments_inv in H as (F0' & w1 & out' & H0 & H & ->).
    destruct i as [|i]; simpl in Hi.
    + injection Hi as <-. exists F0', w, w1. repeat split; trivial.
    + destruct (IH w1 out' H i F Hi) as (F' & wi & wi' & Ho & Ht & Hd).
      exists F', wi, wi'. repeat split; trivial.
      simpl. eapply duplicateDMessageFragments_cons; eauto.
Qed.

(** C4. For every sequence of fragments, empty or not, whose addresses are
    valid, [duplicateDMessageFragments] returns a sequence of the same length;
    its [i]-th fragment is what [_duplicateFragment] returns for the [i]-th
    input, run after the [i] fragments before it; the store has only grown,
    and every input fragment reads as before. *)
Theorem duplicate_sequence_length_order w seq :
  heap_ok (w_heap w) = true -> forallb (fragment_ok (w_heap w)) seq = true ->
  exists out w',
    duplicateDMessageFragments seq w = Some (out, w') /\
    length out = length seq /\
    (forall i F, seq !! i = Some F ->
       exists F' wi wi',
         out !! i = Some F' /\
         duplicateDMessageFragments (take i seq) w = Some (take i out, wi) /\
         _duplicateFragment F wi = Some (F', wi')) /\
    (exists ext, w_heap w' = w_heap w ++ ext) /\
    (forall n, map (reify_fragment n (w_heap w')) seq
               = map (reify_fragment n (w_heap w)) seq).
Proof.
  intros Hh Hseq.
  destruct (duplicateDMessageFragments_run w seq Hh Hseq)
    as (out & ext & t & Hrun & _).
  eexists out, _. split; [exact Hrun|].
  split; [eapply duplicateDMessageFragments_length; eauto|].
  split; [eapply duplicateDMessageFragments_steps; eauto|].
  split; [exists ext; reflexivity|].
  intros n. apply map_ext_in. intros F HF. simpl w_heap.
  apply reify_fragment_app; trivial.
  rewrite forallb_forall in Hseq. auto.
Qed.

Lemma duplicate_sequence_length_order_witness :
  heap_ok (w_heap sample_world) = true /\
  forallb (fragment_ok (w_heap sample_world)) sample_sequence = true /\
  exists out w',
    duplicateDMessageFragments sample_sequence sample_world = Some (out, w') /\
    length out = length sample_sequence /\
    (forall i F, sample_sequence !! i = Some F ->
       exists F' wi wi',
         out !! i = Some F' /\
         duplicateDMessageFragments (take i sample_sequence) sample_world
         = Some (take i out, wi) /\
         _duplicateFragment F wi = Some (F', wi')) /\
    (exists ext, w_heap w' = w_heap sample_world ++ ext) /\
    (forall n, map (reify_fragment n (w_heap w')) sample_sequence
               = map (reify_fragment n (w_heap sample_world)) sample_sequence).
Proof.
  split; [reflexivity|]. split; [reflexivity|].
  apply (duplicate_sequence_length_order sample_world sample_sequence); reflexivity.
Defined.

(** Scenario 3 of the specification, evaluated. *)
Example duplicate_sample_sequence :
  option_map fst (duplicateDMessageFragments sample_sequence sample_world)
  = Some
      [ ContentFragment {| cf_fId := "id5"; cf_part := DMessageTextPart "hello" |};
        AttachmentFragment
          {| af_fId := "id6"; af_title := "notes.txt"; af_caption := "from clipboard";
             af_created := 1700000000000;
             af_part := DMessageDocPart text_plain (DataInlineText "some notes" Undefined)
                          "notes.txt" (Present 3) |};
        ContentFragment {| cf_fId := "id7"; cf_part := DMessageErrorPart "rate limited" |} ].
Proof. reflexivity. Qed.

(** C6. Duplicating twice: the second duplicate has the content of the first,
    and both have the content of the input, once [fId] (and [created], for
    attachments) is stripped. The identifiers are the tokens of successive
    calls of [agiId]. *)
Theorem duplicate_twice_same_content w seq :
  heap_ok (w_heap w) = true -> forallb (fragment_ok (w_heap w)) seq = true ->
  exists out1 w1 out2 w2,
    duplicateDMessageFragments seq w = Some (out1, w1) /\
    duplicateDMessageFragments out1 w1 = Some (out2, w2) /\
    Forall2 (same_content (w_heap w1) (w_heap w2)) out1 out2 /\
    Forall2 (same_content (w_heap w) (w_heap w1)) seq out1 /\
    Forall2 (same_content (w_heap w) (w_heap w2)) seq out2 /\
    (forall i F1 F2, out1 !! i = Some F1 -> out2 !! i = Some F2 ->
       fId F1 = w_tokens w "chat-dfragment" (i + w_agiId_calls w) /\
       fId F2 = w_tokens w "chat-dfragment" (i + length seq + w_agiId_calls w)).
Proof.
  intros Hh Hseq.
  destruct (duplicateDMessageFragments_run w seq Hh Hseq)
    as (out1 & e1 & t1 & Hrun1 & Hh1 & Hok1 & Hsame1 & Hids1 & _).
  set (w1 := advance w e1 (length seq) t1) in *.
  destruct (duplicateDMessageFragments_run w1 out1 Hh1 Hok1)
    as (out2 & e2 & t2 & Hrun2 & _ & _ & Hsame2 & Hids2 & _).
  eexists out1, w1, out2, _. split; [exact Hrun1|]. split; [exact Hrun2|].
  split; [exact Hsame2|]. split; [exact Hsame1|]. split.
  - eapply Forall2_trans; [|exact Hsame1|exact Hsame2].
    intros F1 F2 F3. apply same_content_trans.
  - intros i F1 F2 H1 H2. split; [eauto|].
    rewrite (Hids2 i F2 H2). simpl. f_equal.
    pose proof (Forall2_length _ _ _ Hsame1). lia.
Qed.

Lemma duplicate_twice_same_content_witness :
  heap_ok (w_heap sample_world) = true /\
  forallb (fragment_ok (w_heap sample_world)) (sample_tool_call :: sample_sequence) = true /\
  exists out1 w1 out2 w2,
    duplicateDMessageFragments (sample_tool_call :: sample_sequence) sample_world
    = Some (out1, w1) /\
    duplicateDMessageFragments out1 w1 = Some (out2, w2) /\
    Forall2 (same_content (w_heap w1) (w_heap w2)) out1 out2 /\
    Forall2 (same_content (w_heap sample_world) (w_heap w1))
      (sample_tool_call :: sample_sequence) out1 /\
    Forall2 (same_content (w_heap sample_world) (w_heap w2))
      (sample_tool_call :: sample_sequence) out2 /\
    (forall i F1 F2, out1 !! i = Some F1 -> out2 !! i = Some F2 ->
       fId F1 = w_tokens sample_world "chat-dfragment" (i + w_agiId_calls sample_world) /\
       fId F2 = w_tokens sample_world "chat-dfragment"
                  (i + length (sample_tool_call :: sample_sequence)
                   + w_agiId_calls sample_world)).
Proof.
  split; [reflexivity|]. split; [reflexivity|].
  apply (duplicate_twice_same_content sample_world (sample_tool_call :: sample_sequence));
    reflexivity.
Defined.

(** ** Data references *)

(** C7. [_duplicateDataReference(ref)] is value-equal to [ref]: the [url] of a
    url reference, and the asset identifier, mime type and byte size of a
    dblob reference, are those of [ref]. *)
Theorem duplicateDataReference_value_equal ref :
  _duplicateDataReference ref = ref /\
  reftype (_duplicateDataReference ref) = reftype ref /\
  match ref, _duplicateDataReference ref with
  | DataRefUrl url, DataRefUrl url' => url' = url
  | DataRefDBlob dblobAssetId mimeType bytesSize,
    DataRefDBlob dblobAssetId' mimeType' bytesSize' =>
      dblobAssetId' = dblobAssetId /\ mimeType' = mimeType /\ bytesSize' = bytesSize
  | _, _ => False
  end.
Proof. destruct ref; simpl; auto. Qed.

(** ** Conversion of a content part to an attachment *)

Lemma isTextPart_true part :
  isTextPart part = true <-> exists text, part = DMessageTextPart text.
Proof.
  split.
  - destruct part; try discriminate. eauto.
  - intros [text ->]. reflexivity.
Qed.

Lemma isImageRefPart_true part :
  isImageRefPart part = true <->
  exists dataRef altText width height, part = DMessageImageRefPart dataRef altText width height.
Proof.
  split.
  - destruct part; try discriminate. eauto.
  - intros (dataRef & altText & width & height & ->). reflexivity.
Qed.

Lemma createDocAttachmentFragment_run title caption type data ref meta w :
  createDocAttachmentFragment title caption type data ref meta w
  = Some ({| af_fId := w_tokens w "chat-dfragment" (w_agiId_calls w);
             af_title := title; af_caption := caption;
             af_created := w_clock w (w_now_calls w);
             af_part := DMessageDocPart type data ref (field meta) |},
          advance w [] 1 1).
Proof. apply createAttachmentFragment_run. Qed.

Lemma createImageAttachmentFragment_run title caption dataRef imgAltText width height w :
  createImageAttachmentFragment title caption dataRef imgAltText width height w
  = Some ({| af_fId := w_tokens w "chat-dfragment" (w_agiId_calls w);
             af_title := title; af_caption := caption;
             af_created := w_clock w (w_now_calls w);
             af_part := DMessageImageRefPart dataRef (field imgAltText)
                          (field width) (field height) |},
          advance w [] 1 1).
Proof. apply createAttachmentFragment_run. Qed.

(** The text of the fallback document names the tag of the part. *)
Lemma unsupported_text_names_tag part :
  includes (pt part) ("Conversion of '" +:+ pt part +:+ "' is not supported yet.") = true /\
  includes "not supported"
    ("Conversion of '" +:+ pt part +:+ "' is not supported yet.") = true.
Proof. destruct part; split; reflexivity. Qed.

(** C5. [specialContentPartToDocAttachmentFragment] returns an attachment for
    every part: a text part gives a [text/plain] document with the text, the
    given title and caption; an image part gives an image attachment with the
    duplicated data reference, equal in value to the one given; every other
    part gives a document whose text contains the tag of the part and the
    words "not supported". *)
Theorem specialContentPartToDocAttachmentFragment_total
    title caption contentPart ref docMeta w :
  exists f w',
    specialContentPartToDocAttachmentFragment title caption contentPart ref docMeta w
    = Some (f, w') /\
    match contentPart with
    | DMessageTextPart text =>
        af_title f = title /\ af_caption f = caption /\
        af_part f = DMessageDocPart text_plain
                      (DataInlineText text (Present "text/plain")) ref (field docMeta)
    | DMessageImageRefPart dataRef altText width height =>
        af_title f = title /\ af_caption f = caption /\
        af_part f = DMessageImageRefPart (_duplicateDataReference dataRef)
                      (field (read altText)) (field (read width)) (field (read height)) /\
        _duplicateDataReference dataRef = dataRef
    | _ =>
        exists text,
          af_part f = DMessageDocPart text_plain
                        (DataInlineText text (Present "text/plain")) ref (field docMeta) /\
          includes (pt contentPart) text = true /\
          includes "not supported" text = true
    end.
Proof.
  pose proof (unsupported_text_names_tag contentPart) as [Htag Hwords].
  destruct contentPart as [type data r meta|error|dataRef altText width height|text
                          |id call|id response error env|pText|].
  3: { eexists _, _. split; [apply createImageAttachmentFragment_run|].
       simpl. repeat split. apply duplicateDataReference_id. }
  3: { eexists _, _. split; [apply createDocAttachmentFragment_run|].
       simpl. repeat split. }
  all: eexists _, _; (split; [apply createDocAttachmentFragment_run|]);
    eexists; (split; [reflexivity|]); split; [exact Htag|exact Hwords].
Qed.

(** C9. When the part is neither a text nor an image, the attachment has the
    title 'Error' and the caption 'Content to Attachment', whatever title and
    caption were given; when the part is an image, the result does not depend
    on [ref] and [docMeta]. *)
Theorem specialContentPartToDocAttachmentFragment_discards
    title caption contentPart ref docMeta w :
  (isTextPart contentPart = false -> isImageRefPart contentPart = false ->
   exists f w',
     specialContentPartToDocAttachmentFragment title caption contentPart ref docMeta w
     = Some (f, w') /\
     af_title f = "Error" /\ af_caption f = "Content to Attachment" /\
     forall title' caption',
       specialContentPartToDocAttachmentFragment title' caption' contentPart ref docMeta w
       = Some (f, w')) /\
  (isImageRefPart contentPart = true ->
   forall ref' docMeta',
     specialContentPartToDocAttachmentFragment title caption contentPart ref' docMeta' w
     = specialContentPartToDocAttachmentFragment title caption contentPart ref docMeta w).
Proof.
  split.
  - intros Ht Hi.
    destruct contentPart; try discriminate;
      (eexists _, _; split; [apply createDocAttachmentFragment_run|];
       split; [reflexivity|]; split; [reflexivity|];
       intros; apply createDocAttachmentFragment_run).
  - intros Hi ref' docMeta'. destruct contentPart; try discriminate. reflexivity.
Qed.

Lemma specialContentPartToDocAttachmentFragment_discards_witness :
  (exists f w',
     specialContentPartToDocAttachmentFragment "t" "c"
       (DMessageErrorPart "rate limited") "r" None sample_world
     = Some (f, w') /\
     af_title f = "Error" /\ af_caption f = "Content to Attachment" /\
     forall title' caption',
       specialContentPartToDocAttachmentFragment title' caption'
         (DMessageErrorPart "rate limited") "r" None sample_world
       = Some (f, w')) /\
  (forall ref' docMeta',
     specialContentPartToDocAttachmentFragment "t" "c"
       (DMessageImageRefPart (DataRefUrl "u") Absent Absent Absent) ref' docMeta' sample_world
     = specialContentPartToDocAttachmentFragment "t" "c"
         (DMessageImageRefPart (DataRefUrl "u") Absent Absent Absent) "r" None sample_world).
Proof.
  split.
  - apply (specialContentPartToDocAttachmentFragment_discards "t" "c"
             (DMessageErrorPart "rate limited") "r" None sample_world); reflexivity.
  - apply (specialContentPartToDocAttachmentFragment_discards "t" "c"
             (DMessageImageRefPart (DataRefUrl "u") Absent Absent Absent)
             "r" None sample_world); reflexivity.
Defined.

(** ** Replacing the text of a content fragment *)

(** C10. [specialShallowReplaceTextContentFragment(copyFragment, text)] keeps
    the [fId] of [copyFragment] (it is a pure function: it calls neither
    [agiId] nor the clock), has the text part for [text] as its part, and
    reads like [copyFragment] on every property other than [part]. *)
Theorem specialShallowReplaceTextContentFragment_keeps_fId copyFragment text :
  cf_fId (specialShallowReplaceTextContentFragment copyFragment text) = cf_fId copyFragment /\
  cf_part (specialShallowReplaceTextContentFragment copyFragment text)
  = DMessageTextPart text /\
  forall n h,
    tree_delete "part"
      (reify_fragment n h
         (ContentFragment (specialShallowReplaceTextContentFragment copyFragment text)))
    = tree_delete "part" (reify_fragment n h (ContentFragment copyFragment)).
Proof. repeat split. Qed.

(** ** Totality *)

Lemma duplicatePart_total w part :
  part_ok (w_heap w) part = true ->
  exists part' w',
    _duplicatePart part w = Some (part', w') /\
    pt part' = pt part /\
    content_part part' = content_part part /\
    attachment_part part' = attachment_part part.
Proof.
  intros Hp.
  destruct part as [type data ref meta|error|dataRef altText width height|text
                   |id call|id response error env|pText|];
    try (eexists _, _; split; [reflexivity|]; repeat split; fail).
  - destruct call as [name args desc schema|variant arguments];
      [|eexists _, _; split; [reflexivity|]; repeat split].
    destruct schema as [| |l];
      try (eexists _, _; split; [reflexivity|]; repeat split; fail).
    simpl in Hp. destruct (w_heap w !! l) as [o|] eqn:Hl; [|discriminate].
    eexists _, _. split.
    { simpl. rewrite (bind_Some _ _ _ _ _ (bind_Some _ _ _ _ _ (object_spread_run w l o Hl))).
      reflexivity. }
    repeat split.
  - destruct response; eexists _, _; (split; [reflexivity|]); repeat split.
Qed.

Lemma duplicateFragment_total w F :
  fragment_ok (w_heap w) F = true ->
  exists F' w',
    _duplicateFragment F w = Some (F', w') /\
    ft F' = ft F /\
    option_map pt (fragment_part F') = option_map pt (fragment_part F) /\
    well_typed F' = well_typed F.
Proof.
  intros HF. destruct F as [f|f|f]; simpl in HF.
  - destruct (duplicatePart_total w (cf_part f) HF) as (part' & w1 & Hrun & Hpt & Hc & _).
    eexists _, _. split.
    { simpl. rewrite (bind_Some _ _ _ _ _ Hrun).
      rewrite (bind_Some _ _ _ _ _ (createContentFragment_run part' w1)). reflexivity. }
    simpl. repeat split; congruence.
  - destruct (duplicatePart_total w (af_part f) HF) as (part' & w1 & Hrun & Hpt & _ & Ha).
    eexists _, _. split.
    { simpl. rewrite (bind_Some _ _ _ _ _ Hrun).
      rewrite (bind_Some _ _ _ _ _ (createAttachmentFragment_run _ _ part' w1)). reflexivity. }
    simpl. repeat split; congruence.
  - eexists _, _. split.
    { simpl. rewrite (bind_Some _ _ _ _ _ (createSentinelFragment_run w)). reflexivity. }
    repeat split.
Qed.

(** C8. Every operation returns on every well-typed input. Duplication of a
    fragment whose addresses are valid returns a fragment of the same [ft]
    tag, with a part of the same [pt] tag, well typed if the input is; the
    three [ft] tags and the eight [pt] tags are all there is, and each has a
    case of its own in [_duplicateFragment] and [_duplicatePart]; the
    factories return in every world; the type guards are the comparisons of
    the tag. *)
Theorem core_operations_total w F :
  fragment_ok (w_heap w) F = true ->
  (exists F' w',
     _duplicateFragment F w = Some (F', w') /\
     ft F' = ft F /\
     option_map pt (fragment_part F') = option_map pt (fragment_part F) /\
     well_typed F' = well_typed F) /\
  (exists out w', duplicateDMessageFragments [F] w = Some (out, w') /\ length out = 1) /\
  In (ft F) ["content"; "attachment"; "_ft_sentinel"] /\
  (forall part,
     In (pt part) ["doc"; "error"; "image_ref"; "ph"; "text"; "tool_call";
                   "tool_response"; "_pt_sentinel"]) /\
  (forall error, is_Some (createErrorContentFragment error w)) /\
  (forall dataRef altText width height,
     is_Some (createImageContentFragment dataRef altText width height w)) /\
  (forall placeholderText, is_Some (createPlaceholderMetaFragment placeholderText w)) /\
  (forall text, is_Some (createTextContentFragment text w)) /\
  (forall title caption type data ref meta,
     is_Some (createDocAttachmentFragment title caption type data ref meta w)) /\
  (forall title caption dataRef imgAltText width height,
     is_Some (createImageAttachmentFragment title caption dataRef imgAltText width height w)) /\
  (forall title caption contentPart ref docMeta,
     is_Some (specialContentPartToDocAttachmentFragment title caption contentPart ref docMeta w)) /\
  is_Some (_createSentinelFragment w) /\
  isContentOrAttachmentFragment F = (isContentFragment F || isAttachmentFragment F) /\
  (isContentFragment F = true <-> exists f, F = ContentFragment f) /\
  (isAttachmentFragment F = true <-> exists f, F = AttachmentFragment f) /\
  (forall part, isDocPart part = true <-> pt part = "doc") /\
  (forall part, isImageRefPart part = true <-> pt part = "image_ref") /\
  (forall part, isTextPart part = true <-> pt part = "text").
Proof.
  intros HF.
  split; [now apply duplicateFragment_total|].
  split.
  { destruct (duplicateFragment_total w F HF) as (F' & w' & Hrun & _).
    exists [F'], w'. split; trivial.
    unfold duplicateDMessageFragments. simpl.
    rewrite (bind_Some _ _ _ _ _ Hrun). reflexivity. }
  split; [destruct F; simpl; auto|].
  split; [intros part; destruct part; simpl; auto 10|].
  split; [intros; unfold createErrorContentFragment;
          rewrite createContentFragment_run; eauto|].
  split; [intros; unfold createImageContentFragment;
          rewrite createContentFragment_run; eauto|].
  split; [intros; unfold createPlaceholderMetaFragment;
          rewrite createContentFragment_run; eauto|].
  split; [intros; unfold createTextContentFragment;
          rewrite createContentFragment_run; eauto|].
  split; [intros; rewrite createDocAttachmentFragment_run; eauto|].
  split; [intros; rewrite createImageAttachmentFragment_run; eauto|].
  split.
  { intros title caption contentPart ref docMeta.
    destruct contentPart; simpl;
      rewrite ?createDocAttachmentFragment_run, ?createImageAttachmentFragment_run; eauto. }
  split; [rewrite createSentinelFragment_run; eauto|].
  split; [reflexivity|].
  split; [destruct F; simpl; split; intros H; try discriminate; eauto;
          destruct H; discriminate|].
  split; [destruct F; simpl; split; intros H; try discriminate; eauto;
          destruct H; discriminate|].
  repeat split; intros H; try (apply String.eqb_eq; assumption);
    apply String.eqb_eq in H; assumption.
Qed.

Lemma core_operations_total_witness :
  fragment_ok (w_heap sample_world) sample_tool_call = true /\
  exists F' w',
    _duplicateFragment sample_tool_call sample_world = Some (F', w') /\
    ft F' = ft sample_tool_call /\
    option_map pt (fragment_part F') = option_map pt (fragment_part sample_tool_call) /\
    well_typed F' = well_typed sample_tool_call.
Proof.
  split; [reflexivity|].
  apply (core_operations_total sample_world sample_tool_call). reflexivity.
Defined.

(** * Further properties *)

(** ** What a run of duplication does to the world *)

Lemma read_field_read {A} (o : Optional A) : read (field (read o)) = read o.
Proof. now destruct o. Qed.

Lemma duplicatePart_inv w part part' w' :
  _duplicatePart part w = Some (part', w') ->
  w' = advance w (part_allocation (w_heap w) part) 0 0 /\
  pt part' = pt part /\
  part_meta part' = part_meta part /\
  part_schema part'
  = match part_schema part with
    | Some _ => Some (length (w_heap w))
    | None => None
    end.
Proof.
  destruct part as [type data ref meta|error|dataRef altText width height|text
                   |id call|id response error env|pText|];
    try (intros H; injection H as <- <-;
         unfold part_allocation; simpl; rewrite advance_nil;
         repeat split; apply read_field_read).
  - destruct call as [name args desc schema|variant arguments].
    + destruct schema as [| |l];
        try (intros H; injection H as <- <-;
             unfold part_allocation; simpl; rewrite advance_nil; repeat split).
      unfold part_allocation. simpl.
      unfold bind at 1. unfold bind at 1. unfold object_spread, bind, heap_get.
      destruct (w_heap w !! l) as [o|]; [|discriminate].
      intros H. injection H as <- <-. repeat split.
    + intros H; injection H as <- <-.
      unfold part_allocation; simpl; rewrite advance_nil; repeat split.
  - destruct response; intros H; injection H as <- <-;
      unfold part_allocation; simpl; rewrite advance_nil; repeat split.
Qed.

Lemma duplicateFragment_inv w F F' w' :
  _duplicateFragment F w = Some (F', w') ->
  w' = advance w (fragment_allocation (w_heap w) F) 1
         (if isAttachmentFragment F then 1 else 0) /\
  ft F' = ft F /\
  option_map pt (fragment_part F') = option_map pt (fragment_part F) /\
  fId F' = w_tokens w "chat-dfragment" (w_agiId_calls w) /\
  fragment_created F'
  = (if isAttachmentFragment F then Some (w_clock w (w_now_calls w)) else None) /\
  fragment_title F' = fragment_title F /\
  fragment_caption F' = fragment_caption F /\
  fragment_keys_written F' = true /\
  meta_address F' = meta_address F /\
  schema_address F'
  = match schema_address F with
    | Some _ => Some (length (w_heap w))
    | None => None
    end.
Proof.
  destruct F as [f|f|f]; simpl.
  - unfold bind at 1.
    destruct (_duplicatePart (cf_part f) w) as [[part' w1]|] eqn:Hp; [|discriminate].
    pose proof (duplicatePart_keys_written _ _ _ _ Hp) as Hk.
    apply duplicatePart_inv in Hp as (-> & Hpt & Hm & Hs).
    rewrite (bind_Some _ _ _ _ _ (createContentFragment_run part' _)).
    intros H. injection H as <- <-.
    unfold fragment_allocation, schema_address, meta_address, fragment_keys_written. simpl.
    rewrite advance_advance, app_nil_r. repeat split; trivial. now rewrite Hpt.
  - unfold bind at 1.
    destruct (_duplicatePart (af_part f) w) as [[part' w1]|] eqn:Hp; [|discriminate].
    pose proof (duplicatePart_keys_written _ _ _ _ Hp) as Hk.
    apply duplicatePart_inv in Hp as (-> & Hpt & Hm & Hs).
    rewrite (bind_Some _ _ _ _ _ (createAttachmentFragment_run _ _ part' _)).
    intros H. injection H as <- <-.
    unfold fragment_allocation, schema_address, meta_address, fragment_keys_written. simpl.
    rewrite advance_advance, app_nil_r. repeat split; trivial. now rewrite Hpt.
  - rewrite (bind_Some _ _ _ _ _ (createSentinelFragment_run w)).
    intros H. injection H as <- <-. repeat split.
Qed.

Lemma count_attachments_cons F seq :
  count_attachments (F :: seq)
  = (if isAttachmentFragment F then 1 else 0) + count_attachments seq.
Proof. unfold count_attachments. simpl. now destruct (isAttachmentFragment F). Qed.

Lemma duplicateDMessageFragments_world seq w out w' :
  duplicateDMessageFragments seq w = Some (out, w') ->
  w' = advance w (sequence_allocation (w_heap w) seq) (length seq) (count_attachments seq).
Proof.
  revert w out. induction seq as [|F seq IH]; intros w out H.
  - injection H as _ <-. now rewrite advance_nil.
  - apply duplicateDMessageFragments_inv in H as (F' & w1 & out' & H1 & H2 & ->).
    apply duplicateFragment_inv in H1 as (-> & _).
    apply IH in H2 as ->. rewrite advance_advance, count_attachments_cons. simpl.
    f_equal; lia.
Qed.

Lemma duplicateDMessageFragments_nth seq w out w' i F F' :
  duplicateDMessageFragments seq w = Some (out, w') ->
  seq !! i = Some F -> out !! i = Some F' ->
  ft F' = ft F /\
  option_map pt (fragment_part F') = option_map pt (fragment_part F) /\
  fId F' = w_tokens w "chat-dfragment" (i + w_agiId_calls w) /\
  fragment_created F'
  = (if isAttachmentFragment F
     then Some (w_clock w (count_attachments (take i seq) + w_now_calls w))
     else None) /\
  fragment_title F' = fragment_title F /\
  fragment_caption F' = fragment_caption F /\
  fragment_keys_written F' = true /\
  meta_address F' = meta_address F.
Proof.
  intros Hrun Hi Ho.
  destruct (duplicateDMessageFragments_steps _ _ _ _ Hrun i F Hi)
    as (G & wi & wi' & HG & Htake & Hstep).
  rewrite Ho in HG. injection HG as <-.
  apply duplicateDMessageFragments_world in Htake. subst wi.
  apply duplicateFragment_inv in Hstep
    as (_ & Hft & Hpt & Hid & Hcr & Ht & Hc & Hk & Hm & _).
  simpl in Hid, Hcr.
  rewrite length_take_le in Hid by (apply Nat.lt_le_incl; eapply lookup_lt_Some; eauto).
  repeat split; trivial.
Qed.

Lemma duplicateDMessageFragments_lookup seq w out w' i F' :
  duplicateDMessageFragments seq w = Some (out, w') ->
  out !! i = Some F' -> exists F, seq !! i = Some F.
Proof.
  intros Hrun Ho. apply duplicateDMessageFragments_length in Hrun.
  apply lookup_lt_Some in Ho. apply lookup_lt_is_Some. lia.
Qed.

(** ** Identifiers and timestamps of the duplicates *)

(** X1. When the tokens of [agiId] are pairwise distinct, the identifiers of
    the fragments that [duplicateDMessageFragments] returns are pairwise
    distinct, and none of them is a token issued before the call: the [i]-th
    output carries the token of the [i]-th call made during the
    duplication. *)
Theorem duplicate_fIds_distinct w seq :
  heap_ok (w_heap w) = true -> forallb (fragment_ok (w_heap w)) seq = true ->
  (forall i j, w_tokens w "chat-dfragment" i = w_tokens w "chat-dfragment" j -> i = j) ->
  exists out w',
    duplicateDMessageFragments seq w = Some (out, w') /\
    (forall i F', out !! i = Some F' ->
       fId F' = w_tokens w "chat-dfragment" (i + w_agiId_calls w)) /\
    NoDup (map fId out) /\
    (forall F' k, In F' out -> k < w_agiId_calls w ->
       fId F' <> w_tokens w "chat-dfragment" k).
Proof.
  intros Hh Hseq Hinj.
  destruct (duplicateDMessageFragments_run w seq Hh Hseq)
    as (out & ext & t & Hrun & _ & _ & _ & Hids & _).
  eexists out, _. split; [exact Hrun|]. split; [exact Hids|]. split.
  - apply NoDup_alt. intros i j x Hi Hj.
    change (map fId out) with (fId <$> out) in Hi, Hj.
    rewrite list_lookup_fmap in Hi, Hj.
    destruct (out !! i) as [Fi|] eqn:Ei; [|discriminate].
    destruct (out !! j) as [Fj|] eqn:Ej; [|discriminate].
    simpl in Hi, Hj. injection Hi as Hi. injection Hj as Hj.
    rewrite (Hids i Fi Ei) in Hi. rewrite (Hids j Fj Ej) in Hj.
    rewrite <- Hj in Hi. apply Hinj in Hi. lia.
  - intros F' k HF' Hk E.
    apply list_elem_of_In, list_elem_of_lookup in HF' as [i Hi].
    rewrite (Hids i F' Hi) in E. apply Hinj in E. lia.
Qed.

Lemma duplicate_fIds_distinct_witness :
  heap_ok (w_heap sample_world) = true /\
  forallb (fragment_ok (w_heap sample_world)) sample_sequence = true /\
  (forall i j, w_tokens sample_world "chat-dfragment" i
               = w_tokens sample_world "chat-dfragment" j -> i = j) /\
  exists out w',
    duplicateDMessageFragments sample_sequence sample_world = Some (out, w') /\
    (forall i F', out !! i = Some F' ->
       fId F' = w_tokens sample_world "chat-dfragment" (i + w_agiId_calls sample_world)) /\
    NoDup (map fId out) /\
    (forall F' k, In F' out -> k < w_agiId_calls sample_world ->
       fId F' <> w_tokens sample_world "chat-dfragment" k).
Proof.
  split; [reflexivity|]. split; [reflexivity|].
  split; [apply sample_tokens_distinct|].
  apply (duplicate_fIds_distinct sample_world sample_sequence);
    [reflexivity|reflexivity|apply sample_tokens_distinct].
Defined.

(** X2. A duplication of [seq] calls [agiId] once for each fragment and reads
    the clock once for each attachment, in the order of the sequence. The
    [created] of the duplicate of an attachment is the reading taken for it,
    whatever the [created] of the source; the other duplicates have no
    [created]. *)
Theorem duplicate_calls_and_created w seq :
  heap_ok (w_heap w) = true -> forallb (fragment_ok (w_heap w)) seq = true ->
  exists out w',
    duplicateDMessageFragments seq w = Some (out, w') /\
    w_agiId_calls w' = length seq + w_agiId_calls w /\
    w_now_calls w' = count_attachments seq + w_now_calls w /\
    w_tokens w' = w_tokens w /\ w_clock w' = w_clock w /\
    (forall i F F', seq !! i = Some F -> out !! i = Some F' ->
       fragment_created F'
       = if isAttachmentFragment F
         then Some (w_clock w (count_attachments (take i seq) + w_now_calls w))
         else None).
Proof.
  intros Hh Hseq.
  destruct (duplicateDMessageFragments_run w seq Hh Hseq) as (out & ext & t & Hrun & _).
  pose proof (duplicateDMessageFragments_world _ _ _ _ Hrun) as Hw.
  eexists out, _. split; [exact Hrun|]. rewrite Hw. simpl.
  repeat split.
  intros i F F' Hi Ho.
  now destruct (duplicateDMessageFragments_nth _ _ _ _ i F F' Hrun Hi Ho)
    as (_ & _ & _ & Hcr & _).
Qed.

Lemma duplicate_calls_and_created_witness :
  heap_ok (w_heap sample_world) = true /\
  forallb (fragment_ok (w_heap sample_world)) sample_sequence = true /\
  exists out w',
    duplicateDMessageFragments sample_sequence sample_world = Some (out, w') /\
    w_agiId_calls w' = length sample_sequence + w_agiId_calls sample_world /\
    w_now_calls w' = count_attachments sample_sequence + w_now_calls sample_world /\
    w_tokens w' = w_tokens sample_world /\ w_clock w' = w_clock sample_world /\
    (forall i F F', sample_sequence !! i = Some F -> out !! i = Some F' ->
       fragment_created F'
       = if isAttachmentFragment F
         then Some (w_clock sample_world
                      (count_attachments (take i sample_sequence)
                       + w_now_calls sample_world))
         else None).
Proof.
  split; [reflexivity|]. split; [reflexivity|].
  apply (duplicate_calls_and_created sample_world sample_sequence); reflexivity.
Defined.

(** ** Exact readings *)

Lemma duplicateFragment_ok w F F' w' :
  _duplicateFragment F w = Some (F', w') ->
  heap_ok (w_heap w) = true -> fragment_ok (w_heap w) F = true ->
  heap_ok (w_heap w') = true /\ fragment_ok (w_heap w') F' = true /\
  exists ext, w_heap w' = w_heap w ++ ext.
Proof.
  intros Hrun Hh HF.
  destruct (duplicateFragment_run w F Hh HF) as (G & ext & Hrun' & D).
  rewrite Hrun in Hrun'. injection Hrun' as -> ->.
  destruct D. simpl. eauto.
Qed.

Lemma duplicatePart_same_reading w part part' w' :
  _duplicatePart part w = Some (part', w') ->
  heap_ok (w_heap w) = true -> part_ok (w_heap w) part = true ->
  keys_written part = true ->
  forall n, reify_part n (w_heap w') part' = reify_part n (w_heap w) part.
Proof.
  intros Hrun Hh Hp Hk.
  destruct (duplicatePart_strict w part Hh Hp Hk) as (G & ext & Hrun' & Heq).
  rewrite Hrun in Hrun'. injection Hrun' as -> ->. exact Heq.
Qed.

Lemma duplicateFragment_same_reading w F F' w' :
  _duplicateFragment F w = Some (F', w') ->
  heap_ok (w_heap w) = true -> fragment_ok (w_heap w) F = true ->
  fragment_keys_written F = true ->
  same_reading (w_heap w) (w_heap w') F F'.
Proof.
  intros Hrun Hh HF Hk n. unfold strict_deep_equal, content_of.
  destruct F as [f|f|f]; simpl in Hrun, HF.
  - unfold bind at 1 in Hrun.
    destruct (_duplicatePart (cf_part f) w) as [[part' w1]|] eqn:Hp; [|discriminate].
    rewrite (bind_Some _ _ _ _ _ (createContentFragment_run part' _)) in Hrun.
    injection Hrun as <- <-. simpl. rewrite app_nil_r.
    now rewrite (duplicatePart_same_reading _ _ _ _ Hp Hh HF Hk n).
  - unfold bind at 1 in Hrun.
    destruct (_duplicatePart (af_part f) w) as [[part' w1]|] eqn:Hp; [|discriminate].
    rewrite (bind_Some _ _ _ _ _ (createAttachmentFragment_run _ _ part' _)) in Hrun.
    injection Hrun as <- <-. simpl. rewrite app_nil_r.
    now rewrite (duplicatePart_same_reading _ _ _ _ Hp Hh HF Hk n).
  - rewrite (bind_Some _ _ _ _ _ (createSentinelFragment_run w)) in Hrun.
    injection Hrun as <- <-. reflexivity.
Qed.

Lemma duplicateDMessageFragments_same_reading seq w out w' :
  duplicateDMessageFragments seq w = Some (out, w') ->
  heap_ok (w_heap w) = true -> forallb (fragment_ok (w_heap w)) seq = true ->
  forallb fragment_keys_written seq = true ->
  Forall2 (same_reading (w_heap w) (w_heap w')) seq out.
Proof.
  revert w out. induction seq as [|F seq IH]; intros w out Hrun Hh Hseq Hk.
  - injection Hrun as <- _. constructor.
  - apply duplicateDMessageFragments_inv in Hrun as (F' & w1 & out' & H1 & H2 & ->).
    simpl in Hseq, Hk.
    apply andb_true_iff in Hseq as [HF Hseq]. apply andb_true_iff in Hk as [HkF Hk].
    destruct (duplicateFragment_ok _ _ _ _ H1 Hh HF) as (Hh1 & HF1 & e1 & E1).
    assert (Hseq1 : forallb (fragment_ok (w_heap w1)) seq = true).
    { rewrite E1. apply forallb_forall. intros G HG. apply fragment_ok_app.
      rewrite forallb_forall in Hseq. auto. }
    pose proof (duplicateDMessageFragments_world _ _ _ _ H2) as Hw'.
    assert (E2 : exists e2, w_heap w' = w_heap w1 ++ e2).
    { rewrite Hw'. simpl. eauto. }
    destruct E2 as [e2 E2].
    constructor.
    + intros n. unfold strict_deep_equal. rewrite E2.
      rewrite content_of_app by trivial.
      apply (duplicateFragment_same_reading _ _ _ _ H1 Hh HF HkF).
    + specialize (IH w1 out' H2 Hh1 Hseq1 Hk).
      clear - IH Hseq Hh E1.
      induction IH as [|G G' seq out' HG IH IH']; constructor.
      * simpl in Hseq. apply andb_true_iff in Hseq as [HG0 _].
        intros n. unfold strict_deep_equal. rewrite (HG n), E1.
        now apply content_of_app.
      * simpl in Hseq. apply andb_true_iff in Hseq as [_ Hseq]. auto.
Qed.



(** X5. When no optional key is missing in the inputs, each duplicate reads
    exactly like its source once [fId] (and [created]) is stripped, missing
    keys being told from keys holding [undefined]. *)
Theorem duplicate_same_reading w seq :
  heap_ok (w_heap w) = true -> forallb (fragment_ok (w_heap w)) seq = true ->
  forallb fragment_keys_written seq = true ->
  exists out w',
    duplicateDMessageFragments seq w = Some (out, w') /\
    Forall2 (same_reading (w_heap w) (w_heap w')) seq out.
Proof.
  intros Hh Hseq Hk.
  destruct (duplicateDMessageFragments_run w seq Hh Hseq) as (out & ext & t & Hrun & _).
  eexists out, _. split; [exact Hrun|].
  now apply (duplicateDMessageFragments_same_reading _ _ _ _ Hrun).
Qed.

Lemma duplicate_same_reading_witness :
  heap_ok (w_heap sample_world) = true /\
  forallb (fragment_ok (w_heap sample_world)) sample_keyed_sequence = true /\
  forallb fragment_keys_written sample_keyed_sequence = true /\
  exists out w',
    duplicateDMessageFragments sample_keyed_sequence sample_world = Some (out, w') /\
    Forall2 (same_reading (w_heap sample_world) (w_heap w')) sample_keyed_sequence out.
Proof.
  split; [reflexivity|]. split; [reflexivity|]. split; [reflexivity|].
  apply (duplicate_same_reading sample_world sample_keyed_sequence); reflexivity.
Defined.

(** X4. The duplicate of a duplicate reads exactly like the duplicate, once
    [fId] (and [created]) is stripped: after the first duplication no key is
    missing, so the second one changes nothing that can be read. *)
Theorem duplicate_twice_same_reading w seq :
  heap_ok (w_heap w) = true -> forallb (fragment_ok (w_heap w)) seq = true ->
  exists out1 w1 out2 w2,
    duplicateDMessageFragments seq w = Some (out1, w1) /\
    duplicateDMessageFragments out1 w1 = Some (out2, w2) /\
    Forall2 (same_reading (w_heap w1) (w_heap w2)) out1 out2.
Proof.
  intros Hh Hseq.
  destruct (duplicateDMessageFragments_run w seq Hh Hseq)
    as (out1 & e1 & t1 & Hrun1 & Hh1 & Hok1 & _).
  set (w1 := advance w e1 (length seq) t1) in *.
  destruct (duplicateDMessageFragments_run w1 out1 Hh1 Hok1)
    as (out2 & e2 & t2 & Hrun2 & _).
  eexists out1, w1, out2, _. split; [exact Hrun1|]. split; [exact Hrun2|].
  apply (duplicateDMessageFragments_same_reading _ _ _ _ Hrun2 Hh1 Hok1).
  apply forallb_forall. intros F' HF'.
  apply list_elem_of_In, list_elem_of_lookup in HF' as [i Hi].
  destruct (duplicateDMessageFragments_lookup _ _ _ _ _ _ Hrun1 Hi) as [F HF].
  now destruct (duplicateDMessageFragments_nth _ _ _ _ i F F' Hrun1 HF Hi)
    as (_ & _ & _ & _ & _ & _ & Hk & _).
Qed.

Lemma duplicate_twice_same_reading_witness :
  heap_ok (w_heap sample_world) = true /\
  forallb (fragment_ok (w_heap sample_world)) (sample_tool_call :: sample_sequence) = true /\
  exists out1 w1 out2 w2,
    duplicateDMessageFragments (sample_tool_call :: sample_sequence) sample_world
    = Some (out1, w1) /\
    duplicateDMessageFragments out1 w1 = Some (out2, w2) /\
    Forall2 (same_reading (w_heap w1) (w_heap w2)) out1 out2.
Proof.
  split; [reflexivity|]. split; [reflexivity|].
  apply (duplicate_twice_same_reading sample_world (sample_tool_call :: sample_sequence));
    reflexivity.
Defined.

(** ** What a duplicate shares with its source, in general *)

Lemma schema_address_allocation h F l :
  fragment_ok h F = true -> schema_address F = Some l ->
  exists o, h !! l = Some o /\
            fragment_allocation h F = [{| obj_array := false; obj_props := obj_props o |}].
Proof.
  unfold schema_address, fragment_allocation, part_allocation.
  destruct F as [f|f|f]; simpl; try discriminate.
  - destruct (cf_part f) as [| | | |id call| | |]; simpl; try discriminate.
    destruct call as [name args desc schema|]; simpl; try discriminate.
    destruct schema as [| |m]; simpl; try discriminate.
    intros Hok E. injection E as ->.
    destruct (h !! l) as [o|]; [|discriminate]. eauto.
  - destruct (af_part f) as [| | | |id call| | |]; simpl; try discriminate.
    destruct call as [name args desc schema|]; simpl; try discriminate.
    destruct schema as [| |m]; simpl; try discriminate.
    intros Hok E. injection E as ->.
    destruct (h !! l) as [o|]; [|discriminate]. eauto.
Qed.

Lemma duplicateDMessageFragments_schema_copied seq w out w' :
  duplicateDMessageFragments seq w = Some (out, w') ->
  forallb (fragment_ok (w_heap w)) seq = true ->
  Forall2 (schema_copied (w_heap w) (w_heap w')) seq out.
Proof.
  revert w out. induction seq as [|F seq IH]; intros w out Hrun Hseq.
  - injection Hrun as <- _. constructor.
  - apply duplicateDMessageFragments_inv in Hrun as (F' & w1 & out' & H1 & H2 & ->).
    simpl in Hseq. apply andb_true_iff in Hseq as [HF Hseq].
    pose proof (duplicateDMessageFragments_world _ _ _ _ H2) as Hw'.
    apply duplicateFragment_inv in H1 as (Hw1 & _ & _ & _ & _ & _ & _ & _ & _ & Hs).
    assert (E2 : w_heap w' = (w_heap w ++ fragment_allocation (w_heap w) F)
                               ++ sequence_allocation (w_heap w1) seq).
    { rewrite Hw', Hw1. reflexivity. }
    assert (Hseq1 : forallb (fragment_ok (w_heap w1)) seq = true).
    { rewrite Hw1. simpl. apply forallb_forall. intros G HG. apply fragment_ok_app.
      rewrite forallb_forall in Hseq. auto. }
    constructor.
    + unfold schema_copied. rewrite Hs.
      destruct (schema_address F) as [l|] eqn:El; trivial.
      destruct (schema_address_allocation _ _ _ HF El) as (o & Hl & Ha).
      split; [lia|]. exists o. split; trivial.
      rewrite E2, Ha. rewrite lookup_app_l by (rewrite length_app; simpl; lia).
      rewrite lookup_app_r by lia. now rewrite Nat.sub_diag.
    + specialize (IH w1 out' H2 Hseq1).
      assert (E1 : w_heap w1 = w_heap w ++ fragment_allocation (w_heap w) F)
        by now rewrite Hw1.
      clear - IH Hseq E1.
      induction IH as [|G G' seq out' HG IH IH']; constructor.
      * simpl in Hseq. apply andb_true_iff in Hseq as [HG0 _].
        unfold schema_copied in *.
        destruct (schema_address G) as [l|] eqn:El; trivial.
        destruct (schema_address G') as [l'|]; trivial.
        destruct HG as (Hl' & o & Hl & Hc).
        destruct (schema_address_allocation _ _ _ HG0 El) as (o0 & Hl0 & _).
        rewrite E1 in Hl', Hl. rewrite length_app in Hl'.
        rewrite (lookup_app_l_Some _ _ _ _ Hl0) in Hl. injection Hl as <-.
        split; [lia|]. eauto.
      * simpl in Hseq. apply andb_true_iff in Hseq as [_ Hseq]. auto.
Qed.

(** X6. What a duplicate shares with its source, for every input: the [meta]
    of a document is passed on, so the duplicate holds the address of the
    very [meta] object of its source; the [_args_schema] of a function call is
    copied one level deep, so the duplicate holds a new object, outside the
    store that was there, whose property list is that of the schema of the
    source, the addresses of nested objects included. *)
Theorem duplicate_shares_meta_and_copies_schema w seq :
  heap_ok (w_heap w) = true -> forallb (fragment_ok (w_heap w)) seq = true ->
  exists out w',
    duplicateDMessageFragments seq w = Some (out, w') /\
    Forall2 (fun F F' => meta_address F' = meta_address F) seq out /\
    Forall2 (schema_copied (w_heap w) (w_heap w')) seq out /\
    length (w_heap w') = count_schemas seq + length (w_heap w).
Proof.
  intros Hh Hseq.
  destruct (duplicateDMessageFragments_run w seq Hh Hseq)
    as (out & ext & t & Hrun & _ & _ & Hsame & _).
  pose proof (duplicateDMessageFragments_schema_copied _ _ _ _ Hrun Hseq) as Hc.
  eexists out, _. split; [exact Hrun|]. split; [|split; [exact Hc|]].
  - apply Forall2_same_length_lookup. split; [eapply Forall2_length; eauto|].
    intros i F F' Hi Ho.
    now destruct (duplicateDMessageFragments_nth _ _ _ _ i F F' Hrun Hi Ho)
      as (_ & _ & _ & _ & _ & _ & _ & Hm).
  - rewrite (duplicateDMessageFragments_world _ _ _ _ Hrun). simpl.
    rewrite length_app. clear - Hseq.
    assert (length (sequence_allocation (w_heap w) seq) = count_schemas seq); [|lia].
    generalize (w_heap w) Hseq. clear. induction seq as [|F seq IH]; intros h Hseq; trivial.
    simpl in Hseq. apply andb_true_iff in Hseq as [HF Hseq].
    simpl. rewrite length_app. unfold count_schemas. simpl.
    rewrite IH.
    2: { apply forallb_forall. intros G HG. apply fragment_ok_app.
         rewrite forallb_forall in Hseq. auto. }
    unfold has_schema at 1.
    destruct (schema_address F) as [l|] eqn:El.
    + destruct (schema_address_allocation _ _ _ HF El) as (o & _ & ->). reflexivity.
    + unfold fragment_allocation, part_allocation, schema_address in *.
      destruct (fragment_part F); trivial. now rewrite El.
Qed.

Lemma duplicate_shares_meta_and_copies_schema_witness :
  heap_ok (w_heap sample_world) = true /\
  forallb (fragment_ok (w_heap sample_world)) (sample_tool_call :: sample_sequence) = true /\
  exists out w',
    duplicateDMessageFragments (sample_tool_call :: sample_sequence) sample_world
    = Some (out, w') /\
    Forall2 (fun F F' => meta_address F' = meta_address F)
      (sample_tool_call :: sample_sequence) out /\
    Forall2 (schema_copied (w_heap sample_world) (w_heap w'))
      (sample_tool_call :: sample_sequence) out /\
    length (w_heap w')
    = count_schemas (sample_tool_call :: sample_sequence) + length (w_heap sample_world).
Proof.
  split; [reflexivity|]. split; [reflexivity|].
  apply (duplicate_shares_meta_and_copies_schema sample_world
           (sample_tool_call :: sample_sequence)); reflexivity.
Defined.

(** X7. A property written on an object that the duplication has allocated
    (the schema object of a duplicate, at its own level) is not seen from any
    input fragment, whatever the key and the value. *)
Theorem duplicate_schema_write_not_seen w seq :
  heap_ok (w_heap w) = true -> forallb (fragment_ok (w_heap w)) seq = true ->
  exists out w',
    duplicateDMessageFragments seq w = Some (out, w') /\
    forall i F' l' k v n F,
      out !! i = Some F' -> schema_address F' = Some l' -> In F seq ->
      reify_fragment n (heap_set l' k v (w_heap w')) F = reify_fragment n (w_heap w) F.
Proof.
  intros Hh Hseq.
  destruct (duplicateDMessageFragments_run w seq Hh Hseq) as (out & ext & t & Hrun & _).
  pose proof (duplicateDMessageFragments_schema_copied _ _ _ _ Hrun Hseq) as Hc.
  eexists out, _. split; [exact Hrun|].
  intros i F' l' k v n F Ho Hs HF. simpl w_heap.
  apply write_to_new_object_preserves_source; trivial.
  - rewrite forallb_forall in Hseq. auto.
  - destruct (Forall2_lookup_r _ _ _ _ _ Hc Ho) as (G & _ & HG).
    unfold schema_copied in HG. rewrite Hs in HG.
    destruct (schema_address G); [|contradiction]. apply HG.
Qed.

Lemma duplicate_schema_write_not_seen_witness :
  heap_ok (w_heap sample_world) = true /\
  forallb (fragment_ok (w_heap sample_world)) (sample_tool_call :: sample_sequence) = true /\
  exists out w',
    duplicateDMessageFragments (sample_tool_call :: sample_sequence) sample_world
    = Some (out, w') /\
    forall i F' l' k v n F,
      out !! i = Some F' -> schema_address F' = Some l' ->
      In F (sample_tool_call :: sample_sequence) ->
      reify_fragment n (heap_set l' k v (w_heap w')) F
      = reify_fragment n (w_heap sample_world) F.
Proof.
  split; [reflexivity|]. split; [reflexivity|].
  apply (duplicate_schema_write_not_seen sample_world (sample_tool_call :: sample_sequence));
    reflexivity.
Defined.

(** ** The helper for auxiliary objects *)


(** X9. On the address of a plain object of a closed store,
    [_duplicateObjectWarning] returns a new address, past the end of the
    store; the store that was there is unchanged; the new object has the
    property list of the source and reads like it at every depth, and a
    property that holds an object holds the same object in both. *)
Theorem duplicateObjectWarning_shallow_copy devPlace l o w :
  heap_ok (w_heap w) = true -> w_heap w !! l = Some o -> obj_array o = false ->
  exists w',
    _duplicateObjectWarning (Some l) devPlace w = Some (Some (length (w_heap w)), w') /\
    w_heap w' = w_heap w ++ [{| obj_array := false; obj_props := obj_props o |}] /\
    heap_ok (w_heap w') = true /\
    (forall n, reify_val n (w_heap w') (JRef (length (w_heap w)))
               = reify_val n (w_heap w') (JRef l)) /\
    (forall k l1, props_get k (obj_props o) = JRef l1 ->
       exists o', w_heap w' !! length (w_heap w) = Some o' /\
                  props_get k (obj_props o') = JRef l1).
Proof.
  intros Hh Hl Ha.
  eexists. split.
  { simpl. rewrite (bind_Some _ _ _ _ _ (object_spread_run w l o Hl)). reflexivity. }
  simpl. split; [reflexivity|]. split; [eapply heap_ok_spread; eauto|]. split.
  - intros n. rewrite (reify_spread n _ l o Hh Hl Ha).
    symmetry. apply reify_val_app; trivial.
    simpl. apply Nat.ltb_lt. eapply lookup_lt_Some; eauto.
  - intros k l1 Hk. exists {| obj_array := false; obj_props := obj_props o |}.
    split; [|exact Hk].
    rewrite lookup_app_r by lia. now rewrite Nat.sub_diag.
Qed.

Lemma duplicateObjectWarning_shallow_copy_witness :
  heap_ok (w_heap sample_world) = true /\
  w_heap sample_world !! 0
  = Some {| obj_array := false;
            obj_props := [("type", JStr "object"); ("properties", JRef 1)] |} /\
  exists w',
    _duplicateObjectWarning (Some 0) "tool_call" sample_world
    = Some (Some (length (w_heap sample_world)), w') /\
    w_heap w'
    = w_heap sample_world
        ++ [{| obj_array := false;
               obj_props := [("type", JStr "object"); ("properties", JRef 1)] |}] /\
    heap_ok (w_heap w') = true /\
    (forall n, reify_val n (w_heap w') (JRef (length (w_heap sample_world)))
               = reify_val n (w_heap w') (JRef 0)) /\
    (forall k l1,
       props_get k [("type", JStr "object"); ("properties", JRef 1)] = JRef l1 ->
       exists o', w_heap w' !! length (w_heap sample_world) = Some o' /\
                  props_get k (obj_props o') = JRef l1).
Proof.
  split; [reflexivity|]. split; [reflexivity|].
  apply (duplicateObjectWarning_shallow_copy "tool_call" 0
           {| obj_array := false;
              obj_props := [("type", JStr "object"); ("properties", JRef 1)] |}
           sample_world); reflexivity.
Defined.

(** ** Duplication of a concatenation *)

Lemma Array_map_app {A B} (f : A -> M B) (xs ys : list A) w :
  Array_map f (xs ++ ys) w
  = (o1 <- Array_map f xs ;; o2 <- Array_map f ys ;; ret (o1 ++ o2)) w.
Proof.
  revert w. induction xs as [|x xs IH]; intros w; simpl.
  - unfold bind, ret. simpl. destruct (Array_map f ys w) as [[o2 w2]|]; reflexivity.
  - unfold bind, ret in *. destruct (f x w) as [[y w1]|]; trivial.
    rewrite IH. destruct (Array_map f xs w1) as [[o1 w2]|]; trivial.
    destruct (Array_map f ys w2) as [[o2 w3]|]; reflexivity.
Qed.

(** X10. Duplicating a concatenation is duplicating the first sequence, then
    the second one in the world that the first run leaves, and concatenating
    the results. *)
Theorem duplicate_app seq1 seq2 w :
  duplicateDMessageFragments (seq1 ++ seq2) w
  = (out1 <- duplicateDMessageFragments seq1 ;;
     out2 <- duplicateDMessageFragments seq2 ;;
     ret (out1 ++ out2)) w.
Proof. apply Array_map_app. Qed.

(** ** Conversion, then duplication *)

Lemma specialContentPartToDocAttachmentFragment_run title caption contentPart ref docMeta w :
  exists f,
    specialContentPartToDocAttachmentFragment title caption contentPart ref docMeta w
    = Some (f, advance w [] 1 1) /\
    af_fId f = w_tokens w "chat-dfragment" (w_agiId_calls w) /\
    af_created f = w_clock w (w_now_calls w) /\
    attachment_part (af_part f) = true /\
    keys_written (af_part f) = true /\
    part_schema (af_part f) = None /\
    (forall h, (forall l, docMeta = Some l -> l < length h) -> part_ok h (af_part f) = true).
Proof.
  assert (Hmeta : forall h, (forall l, docMeta = Some l -> l < length h) ->
                            in_heap h (field docMeta) = true).
  { intros h H. destruct docMeta as [l|]; simpl; trivial. apply Nat.ltb_lt. auto. }
  destruct contentPart as [type data r meta|error|dataRef altText width height|text
                          |id call|id response error env|pText|].
  3: { eexists. split; [apply createImageAttachmentFragment_run|]. simpl.
       repeat split. now destruct altText, width, height. }
  all: eexists; (split; [apply createDocAttachmentFragment_run|]); simpl;
    repeat split; trivial; now destruct docMeta.
Qed.

(** X11. Converting an image part to an attachment keeps what is read from
    the part: the part of the attachment is deep-equal to the content part
    (a missing [altText], [width] or [height] becomes a key holding
    [undefined]), and equal to it when none of the three keys is missing. *)
Theorem converted_image_part title caption dataRef altText width height ref docMeta w :
  exists f w',
    specialContentPartToDocAttachmentFragment title caption
      (DMessageImageRefPart dataRef altText width height) ref docMeta w = Some (f, w') /\
    (forall n h, deep_equal (reify_part n h (af_part f))
                   (reify_part n h (DMessageImageRefPart dataRef altText width height))) /\
    (keys_written (DMessageImageRefPart dataRef altText width height) = true ->
     af_part f = DMessageImageRefPart dataRef altText width height).
Proof.
  eexists _, _. split; [apply createImageAttachmentFragment_run|]. simpl. split.
  - intros n h. rewrite duplicateDataReference_id. now destruct altText, width, height.
  - rewrite duplicateDataReference_id. now destruct altText, width, height.
Qed.

(** X12. Whatever the content part, the attachment that
    [specialContentPartToDocAttachmentFragment] returns is well typed and has
    every optional key written; it costs one call of [agiId] and one reading
    of the clock and leaves the store as it is. When [docMeta] is an address
    of the store, the attachment can be duplicated: the duplicate reads
    exactly like it, and the store is still the same after that. *)
Theorem converted_attachment_duplicates title caption contentPart ref docMeta w :
  heap_ok (w_heap w) = true ->
  (forall l, docMeta = Some l -> l < length (w_heap w)) ->
  exists f w1 F' w2,
    specialContentPartToDocAttachmentFragment title caption contentPart ref docMeta w
    = Some (f, w1) /\
    w1 = advance w [] 1 1 /\
    af_fId f = w_tokens w "chat-dfragment" (w_agiId_calls w) /\
    af_created f = w_clock w (w_now_calls w) /\
    well_typed (AttachmentFragment f) = true /\
    fragment_keys_written (AttachmentFragment f) = true /\
    duplicateDMessageFragments [AttachmentFragment f] w1 = Some ([F'], w2) /\
    w_heap w2 = w_heap w /\
    same_reading (w_heap w1) (w_heap w2) (AttachmentFragment f) F'.
Proof.
  intros Hh Hmeta.
  destruct (specialContentPartToDocAttachmentFragment_run
              title caption contentPart ref docMeta w)
    as (f & Hconv & Hid & Hcr & Hwt & Hk & Hs & Hok).
  set (w1 := advance w [] 1 1) in *.
  assert (Hh1 : heap_ok (w_heap w1) = true) by (simpl; now rewrite app_nil_r).
  assert (HF : fragment_ok (w_heap w1) (AttachmentFragment f) = true).
  { simpl. apply Hok. now rewrite app_nil_r. }
  destruct (duplicateFragment_run w1 _ Hh1 HF) as (F' & ext & Hrun & _).
  pose proof (duplicateFragment_same_reading _ _ _ _ Hrun Hh1 HF Hk) as Hsame.
  pose proof (duplicateFragment_inv _ _ _ _ Hrun) as (Hw2 & _).
  eexists f, w1, F', _. split; [exact Hconv|].
  do 5 (split; trivial). split.
  { unfold duplicateDMessageFragments. simpl.
    rewrite (bind_Some _ _ _ _ _ Hrun). reflexivity. }
  split; [|exact Hsame].
  rewrite Hw2. unfold fragment_allocation, part_allocation. simpl.
  rewrite Hs. simpl. now rewrite !app_nil_r.
Qed.

Lemma converted_attachment_duplicates_witness :
  heap_ok (w_heap sample_world) = true /\
  (forall l, Some 3 = Some l -> l < length (w_heap sample_world)) /\
  exists f w1 F' w2,
    specialContentPartToDocAttachmentFragment "notes" "pasted"
      (DMessageTextPart "hello") "clipboard" (Some 3) sample_world
    = Some (f, w1) /\
    w1 = advance sample_world [] 1 1 /\
    af_fId f = w_tokens sample_world "chat-dfragment" (w_agiId_calls sample_world) /\
    af_created f = w_clock sample_world (w_now_calls sample_world) /\
    well_typed (AttachmentFragment f) = true /\
    fragment_keys_written (AttachmentFragment f) = true /\
    duplicateDMessageFragments [AttachmentFragment f] w1 = Some ([F'], w2) /\
    w_heap w2 = w_heap sample_world /\
    same_reading (w_heap w1) (w_heap w2) (AttachmentFragment f) F'.
Proof.
  assert (H : forall l, Some 3 = Some l -> l < length (w_heap sample_world)).
  { intros l E. injection E as <-. simpl. lia. }
  split; [reflexivity|]. split; [exact H|].
  apply (converted_attachment_duplicates "notes" "pasted"
           (DMessageTextPart "hello") "clipboard" (Some 3) sample_world);
    [reflexivity|exact H].
Defined.

(** ** The store stays closed *)

(** X13. Duplication keeps the invariants of its input: the store is closed
    again after the run, the duplicates are valid in it and so are the
    inputs, each duplicate is well typed exactly when its source is, and the
    type guards answer on a duplicate as they do on its source. *)
Theorem duplicate_keeps_invariants w seq :
  heap_ok (w_heap w) = true -> forallb (fragment_ok (w_heap w)) seq = true ->
  exists out w',
    duplicateDMessageFragments seq w = Some (out, w') /\
    heap_ok (w_heap w') = true /\
    forallb (fragment_ok (w_heap w')) out = true /\
    forallb (fragment_ok (w_heap w')) seq = true /\
    Forall2 (fun F F' =>
               well_typed F' = well_typed F /\
               isContentFragment F' = isContentFragment F /\
               isAttachmentFragment F' = isAttachmentFragment F /\
               isContentOrAttachmentFragment F' = isContentOrAttachmentFragment F /\
               option_map isDocPart (fragment_part F')
               = option_map isDocPart (fragment_part F) /\
               option_map isImageRefPart (fragment_part F')
               = option_map isImageRefPart (fragment_part F) /\
               option_map isTextPart (fragment_part F')
               = option_map isTextPart (fragment_part F)) seq out.
Proof.
  intros Hh Hseq.
  destruct (duplicateDMessageFragments_run w seq Hh Hseq)
    as (out & ext & t & Hrun & Hh' & Hout & Hsame & _ & Hwt).
  eexists out, _. split; [exact Hrun|]. simpl w_heap.
  split; [exact Hh'|]. split; [exact Hout|]. split.
  - apply forallb_forall. intros F HF. apply fragment_ok_app.
    rewrite forallb_forall in Hseq. auto.
  - apply Forall2_same_length_lookup. split; [eapply Forall2_length; eauto|].
    intros i F F' Hi Ho.
    pose proof (Forall2_lookup_lr _ _ _ _ _ _ Hwt Hi Ho) as Hw.
    destruct (Forall2_lookup_lr _ _ _ _ _ _ Hsame Hi Ho) as (Hft & Hpt & _).
    split; [exact Hw|].
    unfold isContentFragment, isAttachmentFragment, isContentOrAttachmentFragment.
    rewrite Hft. do 3 (split; [reflexivity|]).
    unfold isDocPart, isImageRefPart, isTextPart.
    destruct (fragment_part F') as [p'|], (fragment_part F) as [p|];
      simpl in *; try discriminate; [|repeat split].
    injection Hpt as ->. repeat split.
Qed.

Lemma duplicate_keeps_invariants_witness :
  heap_ok (w_heap sample_world) = true /\
  forallb (fragment_ok (w_heap sample_world)) (sample_tool_call :: sample_sequence) = true /\
  exists out w',
    duplicateDMessageFragments (sample_tool_call :: sample_sequence) sample_world
    = Some (out, w') /\
    heap_ok (w_heap w') = true /\
    forallb (fragment_ok (w_heap w')) out = true /\
    forallb (fragment_ok (w_heap w')) (sample_tool_call :: sample_sequence) = true /\
    Forall2 (fun F F' =>
               well_typed F' = well_typed F /\
               isContentFragment F' = isContentFragment F /\
               isAttachmentFragment F' = isAttachmentFragment F /\
               isContentOrAttachmentFragment F' = isContentOrAttachmentFragment F /\
               option_map isDocPart (fragment_part F')
               = option_map isDocPart (fragment_part F) /\
               option_map isImageRefPart (fragment_part F')
               = option_map isImageRefPart (fragment_part F) /\
               option_map isTextPart (fragment_part F')
               = option_map isTextPart (fragment_part F))
      (sample_tool_call :: sample_sequence) out.
Proof.
  split; [reflexivity|]. split; [reflexivity|].
  apply (duplicate_keeps_invariants sample_world (sample_tool_call :: sample_sequence));
    reflexivity.
Defined.

(** ** The factories *)

(** X14. Each fragment factory returns, in every world, a well-typed fragment
    that carries the next token of [agiId] (and, for an attachment, the next
    reading of the clock) and the payload given, and leaves the store as it
    is. Every optional key of the part is written, an omitted argument as
    [undefined]; only the [data] of a document is stored as given, with or
    without its [mimeType] key. *)
Theorem factories_make_well_typed_fragments w :
  (forall error, exists f w',
     createErrorContentFragment error w = Some (f, w') /\
     made_in w (ContentFragment f) w' /\ cf_part f = DMessageErrorPart error) /\
  (forall dataRef altText width height, exists f w',
     createImageContentFragment dataRef altText width height w = Some (f, w') /\
     made_in w (ContentFragment f) w' /\
     cf_part f = DMessageImageRefPart dataRef (field altText) (field width) (field height) /\
     keys_written (cf_part f) = true) /\
  (forall placeholderText, exists f w',
     createPlaceholderMetaFragment placeholderText w = Some (f, w') /\
     made_in w (ContentFragment f) w' /\ cf_part f = DMetaPlaceholderPart placeholderText) /\
  (forall text, exists f w',
     createTextContentFragment text w = Some (f, w') /\
     made_in w (ContentFragment f) w' /\ cf_part f = DMessageTextPart text) /\
  (forall title caption type text mimeType ref meta, exists f w',
     createDocAttachmentFragment title caption type (DataInlineText text mimeType) ref meta w
     = Some (f, w') /\
     made_in w (AttachmentFragment f) w' /\
     af_title f = title /\ af_caption f = caption /\
     af_part f = DMessageDocPart type (DataInlineText text mimeType) ref (field meta) /\
     keys_written (af_part f) = written mimeType) /\
  (forall title caption dataRef imgAltText width height, exists f w',
     createImageAttachmentFragment title caption dataRef imgAltText width height w
     = Some (f, w') /\
     made_in w (AttachmentFragment f) w' /\
     af_title f = title /\ af_caption f = caption /\
     af_part f = DMessageImageRefPart dataRef (field imgAltText) (field width) (field height) /\
     keys_written (af_part f) = true).
Proof.
  repeat split;
    try (intros; eexists _, _;
         (split; [first [apply createContentFragment_run
                        |apply createAttachmentFragment_run]|]);
         repeat split).
  all: simpl;
    repeat match goal with
           | o : Optional _ |- _ => destruct o
           | o : option _ |- _ => destruct o
           end;
    reflexivity.
Qed.

(** ** Replacing the text, again *)

(** X15. [specialShallowReplaceTextContentFragment] overrides: replacing the
    text twice is replacing it with the second text, and replacing the text
    of a text fragment by the text it has gives the fragment back. The
    result is a well-typed text fragment that holds no address, so that it is
    valid in every store and is read the same after any write to the store,
    whatever part the source had. *)
Theorem specialShallowReplaceTextContentFragment_overrides copyFragment text1 text2 :
  specialShallowReplaceTextContentFragment
    (specialShallowReplaceTextContentFragment copyFragment text1) text2
  = specialShallowReplaceTextContentFragment copyFragment text2 /\
  (cf_part copyFragment = DMessageTextPart text1 ->
   specialShallowReplaceTextContentFragment copyFragment text1 = copyFragment) /\
  well_typed (ContentFragment (specialShallowReplaceTextContentFragment copyFragment text1))
  = true /\
  isTextPart (cf_part (specialShallowReplaceTextContentFragment copyFragment text1)) = true /\
  (forall h,
     fragment_ok h
       (ContentFragment (specialShallowReplaceTextContentFragment copyFragment text1))
     = true) /\
  (forall n h l k v,
     reify_fragment n (heap_set l k v h)
       (ContentFragment (specialShallowReplaceTextContentFragment copyFragment text1))
     = reify_fragment n h
         (ContentFragment (specialShallowReplaceTextContentFragment copyFragment text1))).
Proof.
  split; [reflexivity|]. split.
  - intros H. destruct copyFragment as [i p]. simpl in H. subst p. reflexivity.
  - repeat split.
Qed.

Lemma specialShallowReplaceTextContentFragment_overrides_witness :
  specialShallowReplaceTextContentFragment
    {| cf_fId := "id2"; cf_part := DMessageTextPart "hello" |} "hello"
  = {| cf_fId := "id2"; cf_part := DMessageTextPart "hello" |}.
Proof.
  apply (specialShallowReplaceTextContentFragment_overrides
           {| cf_fId := "id2"; cf_part := DMessageTextPart "hello" |} "hello" "hello").
  reflexivity.
Defined.
